(** * EventManager: a shallow embedding of the reaction-driven signup cog

    The development follows [src/eventmanager/main.py].  The cog is a
    collection of coroutines that mutate a shared in-memory cache of
    [Event] objects and talk to the chat platform.  We model

    - Python dictionaries as insertion-ordered association lists,
    - [Event] objects as cells of a heap, so that the cache, a copy of the
      cache and a local variable of a handler all alias the same object,
    - the platform (messages, reactions, users, direct messages) as part of
      an explicit [World], together with a log of the API calls issued,
    - exceptions as an explicit outcome of every coroutine.

    [eventmanager/model.py] and [eventmanager/constants.py] are not part of
    the sources at hand: the [Event] methods are modelled from the
    specification (each such definition says so), and the class/spec
    catalog is a parameter of the development. *)

From Stdlib Require Import ZArith List Permutation Lia.
From stdpp Require Import base decidable option list strings.
Import ListNotations.
Local Open Scope Z_scope.

(** ** Python dictionaries *)

(** A [dict] keeps its keys in insertion order; assigning to an existing key
    keeps the key's position.  Keys are unique in every dictionary built
    with [dict_set] from the empty one ([dict_wf]). *)

Section Dict.
Context {K V : Type} `{EqDecision K}.

Fixpoint dict_get (k : K) (d : list (K * V)) : option V :=
  match d with
  | [] => None
  | (k', v) :: r => if decide (k = k') then Some v else dict_get k r
  end.

Fixpoint dict_set (k : K) (v : V) (d : list (K * V)) : list (K * V) :=
  match d with
  | [] => [(k, v)]
  | (k', v') :: r =>
      if decide (k = k') then (k, v) :: r else (k', v') :: dict_set k v r
  end.

Definition dict_values (d : list (K * V)) : list V := map snd d.

Definition dict_keys (d : list (K * V)) : list K := map fst d.

Definition dict_wf (d : list (K * V)) : Prop := NoDup (dict_keys d).

(** [d.setdefault(k, v)]: the dictionary after the call and the value
    returned. *)
Definition dict_setdefault (k : K) (v : V) (d : list (K * V))
  : list (K * V) * V :=
  match dict_get k d with
  | Some v' => (d, v')
  | None => (d ++ [(k, v)], v)
  end.

(** Truth value of a dictionary: empty dictionaries are falsy. *)
Definition dict_truthy (d : list (K * V)) : bool :=
  match d with [] => false | _ :: _ => true end.
End Dict.

(** ** Data model (model.py) *)

Record Entrant := mkEntrant {
  user_id : Z;
  category_class : string;
  category : string;
  spec : string
}.

#[global] Instance Entrant_eq_dec : EqDecision Entrant.
Proof. solve_decision. Defined.

Record Event := mkEvent {
  message_id : Z;
  guild_id : Z;
  author_id : Z;
  channel_id : Z;
  name : string;
  description : string;
  image_url : option string;
  end_time : Z;            (* [end_time.timestamp()], in seconds *)
  entrants : list Entrant;
  ended : bool
}.

Definition set_entrants (es : list Entrant) (e : Event) : Event :=
  mkEvent (message_id e) (guild_id e) (author_id e) (channel_id e) (name e)
          (description e) (image_url e) (end_time e) es (ended e).

Definition set_ended (b : bool) (e : Event) : Event :=
  mkEvent (message_id e) (guild_id e) (author_id e) (channel_id e) (name e)
          (description e) (image_url e) (end_time e) (entrants e) b.

(** *** The rendered embed *)

Inductive Footer := Ended | EndsAt (t : Z).

Record Embed := mkEmbed {
  title : string;
  body : string;
  image : option string;
  roster : list (string * string * list Z);
  footer : Footer
}.

Fixpoint add_to_group (c s : string) (u : Z)
    (groups : list (string * string * list Z)) : list (string * string * list Z) :=
  match groups with
  | [] => [(c, s, [u])]
  | (c', s', us) :: r =>
      if decide (c = c' ∧ s = s') then (c', s', us ++ [u]) :: r
      else (c', s', us) :: add_to_group c s u r
  end.

Definition group_entrants (es : list Entrant) : list (string * string * list Z) :=
  fold_left (fun g en => add_to_group (category_class en) (spec en) (user_id en) g)
            es [].

(** Modelled from the spec: the [Event.embed] property of model.py, missing
    from the sources.  "Renders current state (name, description, image,
    entrant list grouped by class/spec, time remaining or ended)
    deterministically from current fields -- pure function of state". *)
Definition embed (e : Event) : Embed :=
  mkEmbed (name e) (description e) (image_url e) (group_entrants (entrants e))
          (if ended e then Ended else EndsAt (end_time e)).

(** *** Roster operations *)

(** Modelled from the spec: [Event.get_entrant] of model.py, missing from
    the sources.  "Returns the Entrant for user_id or none-value". *)
Fixpoint find_entrant (uid : Z) (es : list Entrant) : option Entrant :=
  match es with
  | [] => None
  | en :: r => if decide (user_id en = uid) then Some en else find_entrant uid r
  end.

Definition get_entrant (e : Event) (uid : Z) : option Entrant :=
  find_entrant uid (entrants e).

(** [list.remove(x)]: drops the first element equal to [x]. *)
Fixpoint list_remove_first (x : Entrant) (es : list Entrant) : list Entrant :=
  match es with
  | [] => []
  | y :: r => if decide (x = y) then r else y :: list_remove_first x r
  end.

(** Modelled from the spec: [Event.remove_entrant] of model.py, missing from
    the sources.  "Removes by identity/value". *)
Definition remove_entrant (e : Event) (en : Entrant) : Event :=
  set_entrants (list_remove_first en (entrants e)) e.

(** Modelled from the spec: [Event.add_entrant] of model.py, missing from
    the sources.  "Inserts or replaces the Entrant for user_id (replacing is
    implicit via caller removing old entry first).  No return value; mutates
    entrant list": the method itself only inserts, and a replacement is the
    caller's removal followed by this insertion. *)
Definition add_entrant (e : Event) (uid : Z) (class_name cat sp : string) : Event :=
  set_entrants (entrants e ++ [mkEntrant uid class_name cat sp]) e.

(** Modelled from the spec: [Event.end] of model.py, missing from the
    sources.  "Marks the event ended, returns the final embed". *)
Definition end_ (e : Event) : Event * Embed :=
  let e' := set_ended true e in (e', embed e').

(** The data-model invariant: at most one entrant per user id. *)
Definition one_entrant_per_user (e : Event) : Prop :=
  NoDup (map user_id (entrants e)).

Definition END_EMOJI : string := "❌".
Definition LEAVE_EMOJI : string := "🧻".

(** ** Persistence format *)

#[warnings="-register-all"]
Inductive Json :=
| JNull
| JBool (b : bool)
| JNum (z : Z)
| JStr (s : string)
| JArr (items : list Json)
| JObj (fields : list (string * Json)).

(** [j[k]]; [None] stands for the [KeyError]/[TypeError] Python raises. *)
Definition json_field (k : string) (j : Json) : option Json :=
  match j with JObj fs => dict_get k fs | _ => None end.

Definition as_num (j : Json) : option Z :=
  match j with JNum z => Some z | _ => None end.
Definition as_str (j : Json) : option string :=
  match j with JStr s => Some s | _ => None end.
Definition as_bool (j : Json) : option bool :=
  match j with JBool b => Some b | _ => None end.
Definition as_opt_str (j : Json) : option (option string) :=
  match j with JNull => Some None | JStr s => Some (Some s) | _ => None end.
Definition as_arr (j : Json) : option (list Json) :=
  match j with JArr l => Some l | _ => None end.

Fixpoint traverse {A B : Type} (f : A → option B) (l : list A) : option (list B) :=
  match l with
  | [] => Some []
  | a :: r => b ← f a; bs ← traverse f r; Some (b :: bs)
  end.

Definition entrant_to_json (en : Entrant) : Json :=
  JObj [("user_id", JNum (user_id en));
        ("category_class", JStr (category_class en));
        ("category", JStr (category en));
        ("spec", JStr (spec en))]%string.

Definition entrant_from_json (j : Json) : option Entrant :=
  u ← json_field "user_id" j ≫= as_num;
  c ← json_field "category_class" j ≫= as_str;
  k ← json_field "category" j ≫= as_str;
  s ← json_field "spec" j ≫= as_str;
  Some (mkEntrant u c k s).

Definition as_entrants (j : Json) : option (list Entrant) :=
  l ← as_arr j; traverse entrant_from_json l.

(** Modelled from the spec: the [Event.json] property ([to_json]) of
    model.py, missing from the sources.  The persisted record holds the
    "serialized Event fields" of the data model: the four ids, name,
    description, image URL, end timestamp, the list of entrants and the
    ended flag. *)
Definition to_json (e : Event) : Json :=
  JObj [("message_id", JNum (message_id e));
        ("guild_id", JNum (guild_id e));
        ("author_id", JNum (author_id e));
        ("channel_id", JNum (channel_id e));
        ("name", JStr (name e));
        ("description", JStr (description e));
        ("image_url", match image_url e with Some u => JStr u | None => JNull end);
        ("end_time", JNum (end_time e));
        ("entrants", JArr (map entrant_to_json (entrants e)));
        ("ended", JBool (ended e))]%string.

(** The running bot: [from_json] receives it to resolve the message
    lazily; none of the stored fields depends on it. *)
Inductive Red : Set := TheBot.

(** Modelled from the spec: [Event.from_json] of model.py, missing from the
    sources.  "to_json/from_json round-trip all fields above; from_json must
    tolerate being given a reference to the running bot instance".  [None]
    stands for any exception raised on a malformed record. *)
Definition from_json (bot : Red) (j : Json) : option Event :=
  mid ← json_field "message_id" j ≫= as_num;
  gid ← json_field "guild_id" j ≫= as_num;
  aid ← json_field "author_id" j ≫= as_num;
  cid ← json_field "channel_id" j ≫= as_num;
  nm ← json_field "name" j ≫= as_str;
  ds ← json_field "description" j ≫= as_str;
  img ← json_field "image_url" j ≫= as_opt_str;
  tm ← json_field "end_time" j ≫= as_num;
  es ← json_field "entrants" j ≫= as_entrants;
  fl ← json_field "ended" j ≫= as_bool;
  Some (mkEvent mid gid aid cid nm ds img tm es fl).

(** ** Strings of digits *)

(** A direct message is a sequence of Unicode code points.  [str.isdigit]
    and [int] read the Unicode database, which is a parameter below: a
    character is a decimal digit with a value (category Nd), a digit that is
    no decimal (superscripts and the like), or something else. *)
Inductive CharKind := Decimal (d : Z) | DigitOnly | Other.

(** [range(n)] *)
Definition py_range (n : nat) : list Z := map Z.of_nat (seq 0 n).

(** ** The platform *)

Inductive DM :=
| SpecPrompt (class_name : string) (lines : list (Z * string * string))
    (* embed "Select a spec for the class ...", lines "ind+1. emoji spec" *)
| TookTooLong        (* "You took too long to respond. Cancelling." *)
| NotValidAnswer (n : nat)
    (* "That's not a valid answer. You must write a number from 1 to n" *)
| SignedUp           (* "You have been signed up to the event." *)
| EventEnded         (* "The event was ended." *)
| RemovedFromEvent   (* "You have been removed from the event." *)
| NotSignedUp.       (* "You weren't signed up to the event." *)

(** The API calls a coroutine issues, in order, whatever their outcome. *)
Inductive Call :=
| RemoveReaction (mid : Z) (emoji : string) (uid : Z)
| ClearReactions (mid : Z)
| SendDM (uid : Z) (dm : DM)
| ChannelSend (cid : Z) (mention : Z)
    (* "I couldn't dm you to select a spec {user.mention}. ..." *)
| EditMessage (mid : Z) (em : Embed)
| ConfigSet (gid mid : Z) (j : Json)
| LogException.

Record Message := mkMessage {
  msg_channel : Z;
  reactions : list (string * Z);   (* (emoji, user id) *)
  shown : option Embed;            (* the embed the message displays *)
  can_manage : bool                (* may the bot remove reactions here? *)
}.

Record User := mkUser {
  bot : bool;
  dm_open : bool                   (* does the user accept direct messages? *)
}.

(** Addresses of [Event] objects. *)
Abbreviation loc := nat.

Record World := mkWorld {
  heap : list Event;               (* the Event objects *)
  cache : list (Z * list (Z * loc));     (* self.cache *)
  config : list (Z * list (Z * Json));   (* self.config.custom("events") *)
  messages : list (Z * Message);   (* messages that can be fetched *)
  users : list (Z * User);         (* bot.get_user *)
  now : Z;                         (* time.time() *)
  log : list Call
}.

Definition set_heap h w :=
  mkWorld h (cache w) (config w) (messages w) (users w) (now w) (log w).
Definition set_cache c w :=
  mkWorld (heap w) c (config w) (messages w) (users w) (now w) (log w).
Definition set_config c w :=
  mkWorld (heap w) (cache w) c (messages w) (users w) (now w) (log w).
Definition set_messages m w :=
  mkWorld (heap w) (cache w) (config w) m (users w) (now w) (log w).
Definition set_log g w :=
  mkWorld (heap w) (cache w) (config w) (messages w) (users w) (now w) g.

Definition log_call (c : Call) (w : World) : World := set_log (log w ++ [c]) w.

Inductive Exn := TypeError | KeyError | IndexError | ValueError | Forbidden | NotFound.

(** How a coroutine stops: it returns, it raises, or it is still suspended
    on [wait_for] when the script of replies ends.  [Stuck] is reserved for
    a cache entry that points outside the heap, which no Python state
    exhibits. *)
Inductive Outcome := Returned | Raised (e : Exn) | Suspended | Stuck.

Fixpoint drop_reaction (r : string * Z) (rs : list (string * Z)) : list (string * Z) :=
  match rs with
  | [] => []
  | x :: rest => if decide (x = r) then drop_reaction r rest else x :: drop_reaction r rest
  end.

Definition set_reactions (rs : list (string * Z)) (m : Message) : Message :=
  mkMessage (msg_channel m) rs (shown m) (can_manage m).
Definition set_shown (em : Embed) (m : Message) : Message :=
  mkMessage (msg_channel m) (reactions m) (Some em) (can_manage m).

Definition update_message (mid : Z) (f : Message → Message) (w : World) : World :=
  match dict_get mid (messages w) with
  | Some m => set_messages (dict_set mid (f m) (messages w)) w
  | None => w
  end.

(** What the platform does to a message on [remove_reaction(emoji, user)]
    and on [clear_reactions()]: without the permission the call raises and
    the message is left as it is. *)
Definition strip_reaction (emoji : string) (uid : Z) (m : Message) : Message :=
  if can_manage m then set_reactions (drop_reaction (emoji, uid) (reactions m)) m
  else m.

Definition strip_all (m : Message) : Message :=
  if can_manage m then set_reactions [] m else m.

(** [try: await message.remove_reaction(emoji, user) except Exception: pass]
    The outcome of the call never reaches the caller. *)
Definition try_remove_reaction (mid : Z) (emoji : string) (uid : Z) (w : World) : World :=
  update_message mid (strip_reaction emoji uid)
    (log_call (RemoveReaction mid emoji uid) w).

(** [try: await message.clear_reactions() except Exception: pass] *)
Definition try_clear_reactions (mid : Z) (w : World) : World :=
  update_message mid strip_all (log_call (ClearReactions mid) w).

(** [await user.send(...)]: [false] when the platform refuses the message
    and the call raises. *)
Definition send_dm (uid : Z) (dm : DM) (w : World) : bool * World :=
  (match dict_get uid (users w) with Some u => dm_open u | None => false end,
   log_call (SendDM uid dm) w).

(** [await message.channel.send(...)] *)
Definition channel_send (cid : Z) (mention : Z) (w : World) : World :=
  log_call (ChannelSend cid mention) w.

(** [await message.edit(embed=...)]: [false] when the message is gone. *)
Definition edit_message (mid : Z) (em : Embed) (w : World) : bool * World :=
  (bool_decide (is_Some (dict_get mid (messages w))),
   update_message mid (set_shown em) (log_call (EditMessage mid em) w)).

(** Modelled from the spec: [Event.message] of model.py, missing from the
    sources.  "Resolves and returns the live channel message object for this
    event, or a null value if it can no longer be fetched -- never raises".
    The handle returned is the message id together with its channel.
    The [messages] of a world are the messages this resolution finds, under
    their ids, which the platform keeps distinct across channels; the
    channel the event records plays no part in the look-up.  An event that
    records another channel than the one its message is in (the command
    with [--channel]) therefore resolves here, where a resolution through
    the recorded channel would not: the statements below take the outcome
    of the resolution as a case or as a hypothesis, and the one that
    derives it (a reaction on the message the command has just posted)
    requires the recorded channel to be the channel of the message. *)
Definition message (e : Event) (w : World) : option (Z * Z) :=
  m ← dict_get (message_id e) (messages w); Some (message_id e, msg_channel m).

Definition get_user (uid : Z) (w : World) : option User := dict_get uid (users w).

(** ** The class/spec catalog (constants.py) *)

Record SpecDetails := mkSpec {
  spec_emoji : string;             (* v["emoji"] *)
  categories : list string         (* v["categories"] *)
}.

Record ClassDetails := mkClass {
  class_emoji : string;            (* details["emoji"] *)
  specs : list (string * SpecDetails)    (* details["specs"] *)
}.

(** ** The reaction payload and the replies of the user *)

Record Payload := mkPayload {
  payload_guild_id : option Z;
  payload_message_id : Z;
  payload_user_id : Z;
  payload_emoji : string           (* str(payload.emoji) *)
}.

(** What one [bot.wait_for("message", check=..., timeout=60)] produces: a
    direct message of the user, or [asyncio.TimeoutError]. *)
Inductive WaitResult := Reply (content : list N) | Timeout.

(** ** The cog *)

Section EventManager.

(** The Unicode database and the two tables of constants.py. *)
Variable char_kind : N → CharKind.
Variable emoji_class_dict : list (string * string).
Variable class_spec_dict : list (string * ClassDetails).

Definition is_digit_char (c : N) : bool :=
  match char_kind c with Other => false | _ => true end.

(** [s.isdigit()]: all characters are digits and there is at least one. *)
Definition str_isdigit (s : list N) : bool :=
  match s with [] => false | _ :: _ => forallb is_digit_char s end.

Fixpoint decimal_value (acc : Z) (s : list N) : option Z :=
  match s with
  | [] => Some acc
  | c :: r =>
      match char_kind c with
      | Decimal d => decimal_value (10 * acc + d) r
      | _ => None
      end
  end.

(** [int(s)] on a string without sign, blank or underscore, which is all
    the handler passes to it ([s.isdigit()] holds): the value of the
    decimal numeral, [None] for the [ValueError] raised on an empty string
    or on a character that is no decimal digit.  (The limit of [int] on
    the number of digits lies beyond the length of a message.) *)
Definition int_ (s : list N) : option Z :=
  match s with [] => None | _ :: _ => decimal_value 0 s end.

(** [[(k, v["emoji"]) for k, v in details["specs"].items()]] *)
Definition valid_specs (details : ClassDetails) : list (string * string) :=
  map (λ kv, (fst kv, spec_emoji (snd kv))) (specs details).

(** The numbered lines of the prompt: [ind+1], [spec[1]], [spec[0]]. *)
Definition prompt_lines (vs : list (string * string)) : list (Z * string * string) :=
  imap (λ ind sp, (Z.of_nat ind + 1, snd sp, fst sp)) vs.

(** [k in [i + 1 for i in range(len(valid_specs))]] *)
Definition in_choices (k : Z) (n : nat) : bool :=
  bool_decide (k ∈ map (λ i, i + 1) (py_range n)).

(** *** Cache and storage *)

Definition config_set (gid mid : Z) (j : Json) (w : World) : World :=
  let inner := default [] (dict_get gid (config w)) in
  set_config (dict_set gid (dict_set mid j inner) (config w))
             (log_call (ConfigSet gid mid j) w).

(** [to_config]: every cached event is written under its own guild and
    message id. *)
Definition save_event (w : World) (l : loc) : World :=
  match heap w !! l with
  | Some ev => config_set (guild_id ev) (message_id ev) (to_json ev) w
  | None => w
  end.

Definition to_config (w : World) : World :=
  fold_left (λ w guild_config, fold_left save_event (dict_values guild_config) w)
            (dict_values (cache w)) w.

(** One iteration of the inner loop of [to_cache]: a record that fails to
    load is logged and skipped; a loaded one becomes a fresh object. *)
Definition load_event (gid : Z) (w : World) (j : Json) : World :=
  match from_json TheBot j, json_field "message_id" j ≫= as_num with
  | Some ev, Some k =>
      let l := length (heap w) in
      let g := default [] (dict_get gid (cache w)) in
      set_cache (dict_set gid (dict_set k l g) (cache w))
                (set_heap (heap w ++ [ev]) w)
  | _, _ => log_call LogException w
  end.

Definition load_guild (w : World) (entry : Z * list (Z * Json)) : World :=
  let gid := fst entry in
  let w1 := set_cache (fst (dict_setdefault gid [] (cache w))) w in
  fold_left (load_event gid) (dict_values (snd entry)) w1.

Definition to_cache (w : World) : World :=
  fold_left load_guild (config w) w.

(** [self.cache.clear()] empties the dictionary and evaluates to [None]. *)
Inductive PyValue := PyNone | PyAwaitable.

Definition cache_clear (w : World) : PyValue * World := (PyNone, set_cache [] w).

(** [await v]: [None] is no awaitable, the expression raises [TypeError]. *)
Definition await (v : PyValue) : option Exn :=
  match v with PyNone => Some TypeError | PyAwaitable => None end.

(** The body of the loop of [check_events] for one event. *)
Definition expire_event (l : loc) (w : World) : Outcome * World :=
  match heap w !! l with
  | None => (Stuck, w)
  | Some event =>
      if bool_decide (end_time event ≤ now w) then
        let '(event', em) := end_ event in
        let w1 := set_heap (<[l := event']> (heap w)) w in
        match message event' w1 with
        | None => (Returned, w1)                    (* continue *)
        | Some (mid, _) =>
            let '(ok, w2) := edit_message mid em w1 in
            if ok then (Returned, w2) else (Raised NotFound, w2)
        end
      else (Returned, w)
  end.

Fixpoint expire_all (ls : list loc) (w : World) : Outcome * World :=
  match ls with
  | [] => (Returned, w)
  | l :: r =>
      match expire_event l w with
      | (Returned, w1) => expire_all r w1
      | stop => stop
      end
  end.

(** The scan of [check_events]: it walks a shallow copy of the cache, so
    the objects it ends are the ones the cache holds. *)
Fixpoint expiry_scan_over (snapshot : list (list (Z * loc))) (w : World)
  : Outcome * World :=
  match snapshot with
  | [] => (Returned, w)
  | guild_config :: r =>
      match expire_all (dict_values guild_config) w with
      | (Returned, w1) => expiry_scan_over r w1
      | stop => stop
      end
  end.

Definition expiry_scan (w : World) : Outcome * World :=
  expiry_scan_over (dict_values (cache w)) w.

(** [check_events], statement by statement. *)
Definition check_events (w : World) : Outcome * World :=
  let w1 := to_config w in
  let '(cleared, w2) := cache_clear w1 in
  match await cleared with
  | Some e => (Raised e, w2)
  | None =>
      let w3 := to_cache w2 in
      expiry_scan w3
  end.

(** [setup] of the package: a cog with an empty cache, then [to_cache].
    Nothing starts the [check_events] loop. *)
Definition setup (w : World) : World := to_cache (set_cache [] w).

(** *** [on_raw_reaction_add] *)

(** The [while answer is None] loop.  [script] lists what the successive
    [wait_for] calls produce; when it is exhausted the coroutine is still
    suspended on the next call. *)
Inductive Selection :=
| Answered (answer : Z) (w : World)
| Stopped (o : Outcome) (w : World).

Fixpoint select_answer (n : nat) (mid uid : Z) (emoji : string)
    (script : list WaitResult) (w : World) : Selection :=
  match script with
  | [] => Stopped Suspended w
  | Timeout :: _ =>
      let '(ok, w1) := send_dm uid TookTooLong w in
      if ok then Stopped Returned (try_remove_reaction mid emoji uid w1)
      else Stopped (Raised Forbidden) w1
  | Reply content :: rest =>
      let retry :=
        let '(ok, w1) := send_dm uid (NotValidAnswer n) w in
        if ok then select_answer n mid uid emoji rest w1     (* continue *)
        else Stopped (Raised Forbidden) w1 in
      if negb (str_isdigit content) then retry
      else
        match int_ content with
        | None => Stopped (Raised ValueError) w
        | Some k => if negb (in_choices k n) then retry else Answered k w
        end
  end.

(** The branch of a class emoji, from the cosmetic clean-up on. *)
Definition class_signup (l : loc) (event : Event) (mid cid uid : Z)
    (emoji class_name : string) (script : list WaitResult) (w : World)
  : Outcome * World :=
  let cleaned :=
    match get_entrant event uid with
    | Some entrant =>
        match dict_get (category_class entrant) class_spec_dict with
        | Some d => inr (try_remove_reaction mid (class_emoji d) uid w)
        | None => inl KeyError
        end
    | None => inr w
    end in
  match cleaned with
  | inl e => (Raised e, w)
  | inr w0 =>
    match dict_get class_name class_spec_dict with
    | None => (Raised KeyError, w0)
    | Some details =>
      let vs := valid_specs details in
      let '(ok, w1) := send_dm uid (SpecPrompt class_name (prompt_lines vs)) w0 in
      if negb ok then (Returned, channel_send cid uid w1)
      else
        match select_answer (length vs) mid uid emoji script w1 with
        | Stopped o w2 => (o, w2)
        | Answered answer w2 =>
          match vs !! Z.to_nat (answer - 1) with
          | None => (Raised IndexError, w2)
          | Some (sp, _) =>
            match dict_get sp (specs details) with
            | None => (Raised KeyError, w2)
            | Some sd =>
              match categories sd with
              | [] => (Raised IndexError, w2)
              | cat :: _ =>
                match heap w2 !! l with
                | None => (Stuck, w2)
                | Some ev =>
                  let ev' := add_entrant ev uid class_name cat sp in
                  let w3 := set_heap (<[l := ev']> (heap w2)) w2 in
                  let '(ok, w4) := send_dm uid SignedUp w3 in
                  if negb ok then (Raised Forbidden, w4)
                  else
                    let '(ok, w5) := edit_message mid (embed ev') w4 in
                    if negb ok then (Raised NotFound, w5)
                    else (Returned, try_remove_reaction mid emoji uid w5)
                end
              end
            end
          end
        end
    end
  end.

(** The branch of the end emoji. *)
Definition end_event (l : loc) (event : Event) (mid uid : Z) (w : World)
  : Outcome * World :=
  if negb (bool_decide (author_id event = uid)) then
    (Returned, try_remove_reaction mid END_EMOJI uid w)
  else
    let w1 := try_clear_reactions mid w in
    let '(event', em) := end_ event in
    let w2 := set_heap (<[l := event']> (heap w1)) w1 in
    let '(ok, w3) := send_dm uid EventEnded w2 in
    if negb ok then (Raised Forbidden, w3)
    else
      let '(ok, w4) := edit_message mid em w3 in
      if negb ok then (Raised NotFound, w4) else (Returned, w4).

(** The branch of the leave emoji. *)
Definition leave_event (l : loc) (event : Event) (mid uid : Z) (w : World)
  : Outcome * World :=
  let w1 := try_remove_reaction mid LEAVE_EMOJI uid w in
  match get_entrant event uid with
  | Some entrant =>
      let event' := remove_entrant event entrant in
      let w2 := set_heap (<[l := event']> (heap w1)) w1 in
      let '(ok, w3) := send_dm uid RemovedFromEvent w2 in
      if negb ok then (Raised Forbidden, w3)
      else
        let '(ok, w4) := edit_message mid (embed event') w3 in
        if negb ok then (Raised NotFound, w4) else (Returned, w4)
  | None =>
      let '(ok, w2) := send_dm uid NotSignedUp w1 in
      if negb ok then (Raised Forbidden, w2) else (Returned, w2)
  end.

(** The handler.  The source tests [emoji in emoji_class_dict] twice (in
    the guard for unknown emojis and at the head of the [if]/[elif] chain)
    and reads [emoji_class_dict[emoji]] in the class branch; the three are
    one lookup here.  [script] is what the [wait_for] calls of this run
    produce. *)
Definition on_raw_reaction_add (payload : Payload) (script : list WaitResult)
    (w : World) : Outcome * World :=
  match payload_guild_id payload with
  | None => (Returned, w)
  | Some g =>
    if bool_decide (g = 0) then (Returned, w) else
    match dict_get g (cache w) with
    | None => (Returned, w)
    | Some data =>
      if negb (dict_truthy data) then (Returned, w) else
      match dict_get (payload_message_id payload) data with
      | None => (Returned, w)
      | Some l =>
        match heap w !! l with
        | None => (Stuck, w)
        | Some event =>
          match message event w with
          | None => (Returned, w)
          | Some (mid, cid) =>
            match get_user (payload_user_id payload) w with
            | None => (Returned, w)
            | Some user =>
              if bot user then (Returned, w) else
              let uid := payload_user_id payload in
              let emoji := payload_emoji payload in
              match dict_get emoji emoji_class_dict with
              | None =>
                  if negb (bool_decide (emoji ∈ [END_EMOJI; LEAVE_EMOJI])) then
                    (Returned, try_remove_reaction mid emoji uid w)
                  else if bool_decide (emoji = END_EMOJI) then
                    end_event l event mid uid w
                  else if bool_decide (emoji = LEAVE_EMOJI) then
                    leave_event l event mid uid w
                  else (Returned, w)
              | Some class_name =>
                  class_signup l event mid cid uid emoji class_name script w
              end
            end
          end
        end
      end
    end
  end.

End EventManager.

(** ** Vocabulary of the statements *)

(** Every object the cache refers to exists. *)
Definition cache_closed (w : World) : bool :=
  forallb (λ gc, forallb (λ l, bool_decide (is_Some (heap w !! l))) (dict_values gc))
          (dict_values (cache w)).

(** The event cached at [l] may have been ended in place. *)
Definition same_or_ended (w : World) (ev : Event) (x : option Event) : Prop :=
  x = Some ev ∨ (end_time ev ≤ now w ∧ x = Some (set_ended true ev)).

(** What a stretch of the expiry scan may change: it ends expired events in
    place, edits messages that can be fetched, and logs those edits. *)
Record scan_step (w : World) (ext : list Call) (w' : World) : Prop := {
  ss_now : now w' = now w;
  ss_cache : cache w' = cache w;
  ss_heap : ∀ l ev, heap w !! l = Some ev → same_or_ended w ev (heap w' !! l);
  ss_msgs : ∀ mid, dict_get mid (messages w') = None ↔ dict_get mid (messages w) = None;
  ss_log : log w' = log w ++ ext;
  ss_edits : ∀ mid em, In (EditMessage mid em) ext → dict_get mid (messages w) ≠ None
}.

(** The reaction reaches the dispatch on the emoji: the guild and the
    message are cached, the message can be fetched, and the user is known
    and no bot. *)
Definition reaches (payload : Payload) (w : World)
    (l : loc) (event : Event) (m : Message) (user : User) : Prop :=
  ∃ g data,
    payload_guild_id payload = Some g ∧ g ≠ 0 ∧
    dict_get g (cache w) = Some data ∧
    dict_get (payload_message_id payload) data = Some l ∧
    heap w !! l = Some event ∧
    dict_get (message_id event) (messages w) = Some m ∧
    dict_get (payload_user_id payload) (users w) = Some user ∧
    bot user = false.

(** A world with more calls logged. *)
Definition logged (ext : list Call) (w : World) : World := set_log (log w ++ ext) w.

(** The previous class of the user, if there is one, is in the catalog. *)
Definition previous_class_known (class_spec_dict : list (string * ClassDetails))
    (event : Event) (uid : Z) : bool :=
  match get_entrant event uid with
  | Some entrant => bool_decide (is_Some (dict_get (category_class entrant) class_spec_dict))
  | None => true
  end.

(** The emoji of the previous class of the user, which the clean-up at the
    start of a class signup removes from the message. *)
Definition previous_emoji (class_spec_dict : list (string * ClassDetails))
    (event : Event) (uid : Z) : option string :=
  entrant ← get_entrant event uid;
  d ← dict_get (category_class entrant) class_spec_dict;
  Some (class_emoji d).

Definition cleanup_calls (class_spec_dict : list (string * ClassDetails))
    (event : Event) (mid uid : Z) : list Call :=
  match previous_emoji class_spec_dict event uid with
  | Some e => [RemoveReaction mid e uid]
  | None => []
  end.

Definition cleanup_message (class_spec_dict : list (string * ClassDetails))
    (event : Event) (uid : Z) (m : Message) : Message :=
  match previous_emoji class_spec_dict event uid with
  | Some e => strip_reaction e uid m
  | None => m
  end.

(** The world after the clean-up, when the clean-up does not raise. *)
Definition after_cleanup (class_spec_dict : list (string * ClassDetails))
    (event : Event) (mid uid : Z) (w : World) : World :=
  match previous_emoji class_spec_dict event uid with
  | Some e => try_remove_reaction mid e uid w
  | None => w
  end.

(** The prompt sent for a class. *)
Definition spec_prompt (class_name : string) (details : ClassDetails) : DM :=
  SpecPrompt class_name (prompt_lines (valid_specs details)).

(** A reply that is no choice among [n] specs: it is no string of digits,
    or it is the decimal numeral of a number outside [1, n]. *)
Definition invalid_reply (char_kind : N → CharKind) (n : nat) (content : list N) : bool :=
  negb (str_isdigit char_kind content) ||
  match int_ char_kind content with
  | Some k => negb ((1 <=? k) && (k <=? Z.of_nat n))
  | None => false
  end.

(** The abort on a refused prompt as the specification words it: the
    notice is posted in the channel of the message, the event is untouched
    and the triggering reaction is still on the message. *)
Definition refused_prompt_keeps_reaction
    (char_kind : N → CharKind) (emoji_class_dict : list (string * string))
    (class_spec_dict : list (string * ClassDetails))
    (payload : Payload) (script : list WaitResult) (w : World) : Prop :=
  ∀ l event m user cls details,
    reaches payload w l event m user →
    dict_get (payload_emoji payload) emoji_class_dict = Some cls →
    dict_get cls class_spec_dict = Some details →
    previous_class_known class_spec_dict event (payload_user_id payload) = true →
    dm_open user = false →
    In (payload_emoji payload, payload_user_id payload) (reactions m) →
    ∃ w' m',
      on_raw_reaction_add char_kind emoji_class_dict class_spec_dict payload script w
      = (Returned, w') ∧
      heap w' = heap w ∧
      In (ChannelSend (msg_channel m) (payload_user_id payload)) (log w') ∧
      dict_get (message_id event) (messages w') = Some m' ∧
      In (payload_emoji payload, payload_user_id payload) (reactions m').



(** ** A small concrete instance *)

Module Demo.

(** A fragment of the Unicode database: ASCII digits are decimal; the
    superscripts two (U+00B2) and nine (U+2079) are digits
    (Numeric_Type=Digit) that are no decimals. *)
Definition char_kind (c : N) : CharKind :=
  if ((48 <=? c) && (c <=? 57))%N then Decimal (Z.of_N c - 48)
  else if ((c =? 178) || (c =? 8313))%N then DigitOnly
  else Other.

Definition warrior : string := "<:warrior:1>".
Definition mage : string := "<:mage:2>".

Definition emoji_class_dict : list (string * string) :=
  [(warrior, "warrior"); (mage, "mage")]%string.

Definition raid (es : list Entrant) : Event :=
  mkEvent 100 1 9 5 "Raid" "desc" None 5000 es false.

Definition member : Z := 7.
Definition author : Z := 9.

Definition warrior_entry : Entrant := mkEntrant member "warrior" "melee" "arms".

Definition react (uid : Z) (emoji : string) : Payload :=
  mkPayload (Some 1) 100 uid emoji.

(** The replies "2", "9", "x" and the superscript nine. *)
Definition two : list N := [50%N].
Definition nine : list N := [57%N].
Definition letter : list N := [120%N].
Definition superscript_nine : list N := [8313%N].

Definition mage_details : ClassDetails :=
  mkClass mage
    [("arcane", mkSpec "<:arcane:21>" ["ranged"]);
     ("fire", mkSpec "<:fire:22>" ["ranged"]);
     ("frost", mkSpec "<:frost:23>" ["ranged"])]%string.

Definition warrior_details : ClassDetails :=
  mkClass warrior
    [("arms", mkSpec "<:arms:11>" ["melee"]);
     ("fury", mkSpec "<:fury:12>" ["melee"]);
     ("protection", mkSpec "<:prot:13>" ["tank"; "melee"])]%string.

Definition class_spec_dict : list (string * ClassDetails) :=
  [("warrior", warrior_details); ("mage", mage_details)]%string.

Definition run := on_raw_reaction_add char_kind emoji_class_dict class_spec_dict.

(** The message of the event before the handler runs. *)
Definition posted (reaction : string * Z) : Message :=
  mkMessage 5 [reaction] None true.

(** One guild with one event; the message carries the reaction that
    triggered the handler. *)
Definition world (es : list Entrant) (reaction : string * Z) (dm : bool) : World :=
  mkWorld [raid es] [(1, [(100, 0%nat)])] []
          [(100, posted reaction)]
          [(member, mkUser false dm); (author, mkUser false dm)]
          4000 [].

(** The same event after its end time, its message deleted. *)
Definition late_world : World :=
  mkWorld [raid [warrior_entry]] [(1, [(100, 0%nat)])] [] [] [] 6000 [].

End Demo.

(** ** The rest of the cog *)

(** *** [on_member_leave] *)

(** The body of the loop for one event: a member without an entrant leaves
    the event alone; otherwise the entrant is removed and the message, if
    it can be fetched, is edited. *)
Definition drop_member (uid : Z) (l : loc) (w : World) : Outcome * World :=
  match heap w !! l with
  | None => (Stuck, w)
  | Some event =>
      match get_entrant event uid with
      | None => (Returned, w)
      | Some entrant =>
          let event' := remove_entrant event entrant in
          let w1 := set_heap (<[l := event']> (heap w)) w in
          match message event' w1 with
          | None => (Returned, w1)                    (* continue *)
          | Some (mid, _) =>
              let '(ok, w2) := edit_message mid (embed event') w1 in
              if ok then (Returned, w2) else (Raised NotFound, w2)
          end
      end
  end.

Fixpoint drop_member_all (uid : Z) (ls : list loc) (w : World) : Outcome * World :=
  match ls with
  | [] => (Returned, w)
  | l :: r =>
      match drop_member uid l w with
      | (Returned, w1) => drop_member_all uid r w1
      | stop => stop
      end
  end.

(** [on_member_leave(member)], with [member.guild.id] and [member.id]: the
    coroutine as it runs when it is called.  It is registered as a listener
    under its own name, and discord.py announces the departure of a member
    as [on_member_remove]: the library itself never makes the call. *)
Definition on_member_leave (gid uid : Z) (w : World) : Outcome * World :=
  match dict_get gid (cache w) with
  | None => (Returned, w)
  | Some data => drop_member_all uid (dict_values data) w
  end.

(** *** The [event] command *)

(** Modelled from the spec: the parsed flags of the command ([Flags] of
    model.py, missing from the sources; a dictionary after parsing).  "End
    time, image (URL), name, description, optional channel id". *)
Record Flags := mkFlags {
  flag_end_time : Z;
  flag_image_url : option string;
  flag_name : string;
  flag_description : string;
  flag_channel_id : option Z
}.

(** The invocation context, in a guild: [ctx.guild.id], [ctx.channel.id],
    [ctx.author.id] and [ctx.message.id]. *)
Record Context := mkContext {
  ctx_guild : Z;
  ctx_channel : Z;
  ctx_author : Z;
  ctx_message : Z
}.

(** [flags.get("channel_id") or ctx.channel.id]: a missing channel and the
    id 0 are both falsy. *)
Definition channel_or (flag : option Z) (fallback : Z) : Z :=
  match flag with
  | Some c => if bool_decide (c = 0) then fallback else c
  | None => fallback
  end.

(** Modelled from the spec: the constructor of [Event] (model.py, missing
    from the sources).  "Construct with author, guild, channel, message
    ids, name, description, end time, optional image"; a new event has no
    entrant and is not ended. *)
Definition new_event (mid gid aid : Z) (flags : Flags) (cid : Z) : Event :=
  mkEvent mid gid aid cid (flag_name flags) (flag_description flags)
          (flag_image_url flags) (flag_end_time flags) [] false.

Definition set_message_id (mid : Z) (e : Event) : Event :=
  mkEvent mid (guild_id e) (author_id e) (channel_id e) (name e)
          (description e) (image_url e) (end_time e) (entrants e) (ended e).

(** The reactions [start_adding_reactions] is asked to add, in order. *)
Definition reaction_menu (emoji_class_dict : list (string * string)) : list string :=
  dict_keys emoji_class_dict ++ [END_EMOJI; LEAVE_EMOJI].

(** [self.cache.setdefault(gid, {})[mid] = l] *)
Definition cache_insert (gid mid : Z) (l : loc) (c : list (Z * list (Z * loc)))
  : list (Z * list (Z * loc)) :=
  let '(c1, inner) := dict_setdefault gid [] c in
  dict_set gid (dict_set mid l inner) c1.

(** The command.  [sent] is what [ctx.send] produces: the id of the new
    message and whether the bot may manage its reactions, or [None] when
    the platform refuses the message.  The message is posted where the
    command was invoked.  The result carries the reaction menu handed to
    [start_adding_reactions]. *)
Definition event_command (emoji_class_dict : list (string * string))
    (ctx : Context) (flags : Flags) (sent : option (Z * bool)) (w : World)
  : Outcome * World * list string :=
  let cid := channel_or (flag_channel_id flags) (ctx_channel ctx) in
  let event := new_event (ctx_message ctx) (ctx_guild ctx) (ctx_author ctx) flags cid in
  match sent with
  | None => (Raised Forbidden, w, [])
  | Some (msg_id, manage) =>
      let posted := mkMessage (ctx_channel ctx) [] (Some (embed event)) manage in
      let w1 := set_messages (dict_set msg_id posted (messages w)) w in
      let event' := set_message_id msg_id event in
      let l := length (heap w1) in
      let w2 := set_heap (heap w1 ++ [event']) w1 in
      (Returned,
       set_cache (cache_insert (ctx_guild ctx) msg_id l (cache w2)) w2,
       reaction_menu emoji_class_dict)
  end.

(** *** Reading the cache and the store *)

(** The event cached under a guild and a message id. *)
Definition cached_event (w : World) (g k : Z) : option Event :=
  data ← dict_get g (cache w); l ← dict_get k data; heap w !! l.

(** The record stored under a guild and a message id. *)
Definition stored (w : World) (g k : Z) : option Json :=
  recs ← dict_get g (config w); dict_get k recs.

(** The object a reaction is about, if any. *)
Definition target (payload : Payload) (w : World) : option loc :=
  g ← payload_guild_id payload;
  data ← dict_get g (cache w);
  dict_get (payload_message_id payload) data.

(** The last record of a list that loads as an event with message id [k]. *)
Fixpoint last_loaded (k : Z) (js : list Json) : option Event :=
  match js with
  | [] => None
  | j :: r =>
      match last_loaded k r with
      | Some ev => Some ev
      | None =>
          match from_json TheBot j with
          | Some ev => if bool_decide (message_id ev = k) then Some ev else None
          | None => None
          end
      end
  end.

(** What a load of the store [c] files under the guild [g] and the message
    id [k]: the last record of the guild that loads with the message id
    [k], whatever key it is stored under. *)
Definition loaded (c : list (Z * list (Z * Json))) (g k : Z) : option Event :=
  recs ← dict_get g c; last_loaded k (dict_values recs).

(** The events the cache refers to, in the order [to_config] visits
    them. *)
Definition cached_events (w : World) : list Event :=
  omap (λ l, heap w !! l) (concat (map dict_values (dict_values (cache w)))).

(** The last event of a list that has [g] and [k] as its own guild and
    message id. *)
Fixpoint last_owned (g k : Z) (evs : list Event) : option Event :=
  match evs with
  | [] => None
  | ev :: r =>
      match last_owned g k r with
      | Some x => Some x
      | None =>
          if bool_decide (guild_id ev = g ∧ message_id ev = k) then Some ev else None
      end
  end.

(** The number of records that do not load. *)
Definition unloadable (js : list Json) : nat :=
  length (filter (λ j, from_json TheBot j = None) js).

(** Every cached event sits under its own guild and message id. *)
Definition cache_keyed (w : World) : bool :=
  forallb (λ gd : Z * list (Z * loc),
     forallb (λ kl : Z * loc,
        match heap w !! kl.2 with
        | Some ev => bool_decide (guild_id ev = gd.1 ∧ message_id ev = kl.1)
        | None => false
        end) gd.2)
    (cache w).

(** Every stored record that loads sits under its own message id. *)
Definition config_keyed (c : list (Z * list (Z * Json))) : bool :=
  forallb (λ gr : Z * list (Z * Json),
     forallb (λ kj : Z * Json,
        match from_json TheBot kj.2 with
        | Some ev => bool_decide (message_id ev = kj.1)
        | None => true
        end) gr.2)
    c.

(** Keys are unique in a dictionary of dictionaries and in each of its
    values, as in every Python dictionary. *)
Definition nested_wf {V : Type} (d : list (Z * list (Z * V))) : Prop :=
  dict_wf d ∧ Forall (λ gd, dict_wf gd.2) d.

(** What a reaction of [uid] may do to an event: identity, description and
    end time stay, an ended event stays ended, and the entrants of the
    other users stay. *)
Record evolves (uid : Z) (ev ev' : Event) : Prop := {
  ev_message_id : message_id ev' = message_id ev;
  ev_guild_id : guild_id ev' = guild_id ev;
  ev_author_id : author_id ev' = author_id ev;
  ev_channel_id : channel_id ev' = channel_id ev;
  ev_name : name ev' = name ev;
  ev_description : description ev' = description ev;
  ev_image_url : image_url ev' = image_url ev;
  ev_end_time : end_time ev' = end_time ev;
  ev_ended : ended ev = true → ended ev' = true;
  ev_others : ∀ uid', uid' ≠ uid → get_entrant ev' uid' = get_entrant ev uid'
}.

(** What a handler run for a reaction of [uid] on the object [l] may do to
    the world: it only logs calls, edits messages and lets the event at [l]
    evolve. *)
Record touches (uid : Z) (l : option loc) (w w' : World) : Prop := {
  t_cache : cache w' = cache w;
  t_config : config w' = config w;
  t_users : users w' = users w;
  t_now : now w' = now w;
  t_log : ∃ ext, log w' = log w ++ ext;
  t_length : length (heap w') = length (heap w);
  t_other : ∀ l', l ≠ Some l' → heap w' !! l' = heap w !! l';
  t_event : ∀ l' ev, heap w !! l' = Some ev →
              ∃ ev', heap w' !! l' = Some ev' ∧ evolves uid ev ev'
}.

(** What the departure of [uid] may do to an event: entrants are dropped,
    none of another user. *)
Definition pruned (uid : Z) (ev ev' : Event) : Prop :=
  evolves uid ev ev' ∧ ended ev' = ended ev ∧ entrants ev' `sublist_of` entrants ev.

(** The stored records, guild after guild. *)
Definition all_records (c : list (Z * list (Z * Json))) : list Json :=
  concat (map (λ gr : Z * list (Z * Json), dict_values gr.2) c).

(** The flush, the clearing and the reload that [check_events] strings
    together. *)
Definition flush_and_reload (w : World) : World :=
  to_cache (set_cache [] (to_config w)).

(** Every object the cache refers to exists, as a statement. *)
Definition closed (w : World) : Prop :=
  ∀ g data k l, In (g, data) (cache w) → In (k, l) data → (l < length (heap w))%nat.

(** ** More concrete instances *)

Module DemoStore.

(** A store with one record that loads and one that does not. *)
Definition records : list (Z * list (Z * Json)) :=
  [(1, [(100, to_json (Demo.raid [Demo.warrior_entry])); (101, JNull)])].

Definition stored_world : World := mkWorld [] [] records [] [] 4000 [].

Definition ctx : Context := mkContext 1 5 Demo.author 90.

Definition flags : Flags := mkFlags 5000 None "Raid" "desc" (Some 6).

Definition thumbs_up : string := "👍".

(** The same command without [--channel]. *)
Definition plain_flags : Flags := mkFlags 5000 None "Raid" "desc" None.

(** A store whose record under 101 holds the message id 100. *)
Definition misfiled_records : list (Z * list (Z * Json)) :=
  [(1, [(100, to_json (Demo.raid [Demo.warrior_entry]));
        (101, to_json (Demo.raid []))])].

Definition misfiled_store : World := mkWorld [] [] misfiled_records [] [] 4000 [].

(** The raid is cached under its ids; the store holds an older record of
    it under 100 and a copy of that record under 101. *)
Definition stale_world : World :=
  mkWorld [Demo.raid [Demo.warrior_entry]] [(1, [(100, 0%nat)])]
          [(1, [(100, to_json (Demo.raid [])); (101, to_json (Demo.raid []))])]
          [] [] 4000 [].

(** The raid, an event of guild 1, cached under guild 2 (as a load files
    it when its record is stored under guild 2), with the record it was
    loaded from. *)
Definition misfiled_world : World :=
  mkWorld [Demo.raid [Demo.warrior_entry]] [(2, [(100, 0%nat)])]
          [(2, [(100, to_json (Demo.raid []))])] [] [] 4000 [].

End DemoStore.

(** * Properties *)

(** ** Dictionaries *)

Section DictFacts.
Context {K V : Type} `{EqDecision K}.
Implicit Types (d : list (K * V)) (k : K) (v : V).

Lemma dict_get_set_eq d k v : dict_get k (dict_set k v d) = Some v.
Proof.
  induction d as [|[k' v'] d IH]; simpl.
  - by rewrite decide_True.
  - destruct (decide (k = k')) as [->|Hne]; simpl.
    + by rewrite decide_True.
    + by rewrite decide_False.
Qed.

Lemma dict_get_set_ne d k k' v :
  k' ≠ k → dict_get k' (dict_set k v d) = dict_get k' d.
Proof.
  intros Hne. induction d as [|[k0 v0] d IH]; simpl.
  - by rewrite decide_False.
  - destruct (decide (k = k0)) as [->|Hk]; simpl.
    + by rewrite !decide_False.
    + destruct (decide (k' = k0)); [done | apply IH].
Qed.

Lemma dict_get_set_None d k k' v :
  dict_get k' d = None → k' ≠ k → dict_get k' (dict_set k v d) = None.
Proof. intros Hd Hne. by rewrite dict_get_set_ne. Qed.

Lemma dict_get_Some_truthy d k v : dict_get k d = Some v → dict_truthy d = true.
Proof. by destruct d. Qed.

Lemma dict_get_In d k v : dict_get k d = Some v → In v (dict_values d).
Proof.
  induction d as [|[k' v'] d IH]; simpl; [done|].
  destruct (decide (k = k')); [intros [= ->]; by left | right; auto].
Qed.
End DictFacts.

(** ** Serialization *)

Lemma entrant_roundtrip (en : Entrant) :
  entrant_from_json (entrant_to_json en) = Some en.
Proof. by destruct en. Qed.

Lemma entrants_roundtrip (es : list Entrant) :
  traverse entrant_from_json (map entrant_to_json es) = Some es.
Proof.
  induction es as [|en es IH]; [done|].
  cbn [map traverse]. rewrite entrant_roundtrip, IH. done.
Qed.

Lemma from_json_to_json (b : Red) (e : Event) : from_json b (to_json e) = Some e.
Proof.
  destruct e as [mid gid aid cid nm ds img tm es fl].
  unfold from_json, to_json.
  pose proof (entrants_roundtrip es) as Hes.
  cbn [message_id guild_id author_id channel_id name description image_url
       end_time entrants ended].
  revert Hes. generalize (map entrant_to_json es). intros js Hes.
  destruct img; simpl; unfold as_entrants; simpl; by rewrite Hes.
Qed.

(** C6.  Serializing an event with [to_json] and reading the record back
    with [from_json], whatever bot reference is passed, succeeds and
    yields an event with the same name, description, end time, image,
    author, guild, channel and message ids, and the same entrants up to
    order. *)
Theorem to_json_from_json_roundtrip (b : Red) (e : Event) :
  ∃ e', from_json b (to_json e) = Some e' ∧
        name e' = name e ∧ description e' = description e ∧
        end_time e' = end_time e ∧ image_url e' = image_url e ∧
        author_id e' = author_id e ∧ guild_id e' = guild_id e ∧
        channel_id e' = channel_id e ∧ message_id e' = message_id e ∧
        Permutation (entrants e') (entrants e).
Proof. exists e. rewrite from_json_to_json. by repeat split. Qed.

(** ** Ending an event *)

Lemma set_ended_twice (b : bool) (e : Event) : set_ended b (set_ended b e) = set_ended b e.
Proof. done. Qed.

(** C7.  [end()] is idempotent: a second call leaves the event in the state
    the first call produced (ended, same roster, every other field as
    well) and returns the same final embed. *)
Theorem end_idempotent (e : Event) :
  let once := end_ e in
  let twice := end_ (fst once) in
  fst twice = fst once ∧ snd twice = snd once ∧
  ended (fst twice) = true ∧ ended (fst once) = true ∧
  entrants (fst twice) = entrants (fst once) ∧
  entrants (fst once) = entrants e.
Proof. by repeat split. Qed.

(** ** The periodic task *)

Lemma save_event_cache (w : World) (l : loc) :
  cache (save_event w l) = cache w ∧ heap (save_event w l) = heap w ∧
  messages (save_event w l) = messages w.
Proof. unfold save_event. by destruct (heap w !! l). Qed.

Lemma save_events_heap (ls : list loc) (w : World) :
  heap (fold_left save_event ls w) = heap w ∧
  messages (fold_left save_event ls w) = messages w.
Proof.
  revert w. induction ls as [|l ls IH]; intros w; simpl; [done|].
  destruct (IH (save_event w l)) as [-> ->].
  by destruct (save_event_cache w l) as (_ & -> & ->).
Qed.

Lemma to_config_heap (w : World) :
  heap (to_config w) = heap w ∧ messages (to_config w) = messages w.
Proof.
  unfold to_config. generalize (dict_values (cache w)). intros gs. revert w.
  induction gs as [|g gs IH]; intros w; simpl; [done|].
  destruct (IH (fold_left save_event (dict_values g) w)) as [-> ->].
  apply save_events_heap.
Qed.

(** C2.  What [check_events] does on every run: after the flush and the
    clearing of the cache, awaiting the [None] that [dict.clear()] returns
    raises [TypeError].  The cache is left empty, nothing is reloaded, no
    event is ended and no message is edited. *)
Theorem check_events_raises (w : World) :
  ∃ w', check_events w = (Raised TypeError, w') ∧
        w' = set_cache [] (to_config w) ∧
        cache w' = [] ∧ heap w' = heap w ∧ messages w' = messages w.
Proof.
  eexists. unfold check_events, cache_clear, await. cbn.
  split; [reflexivity|]. split; [reflexivity|]. cbn.
  split; [done|]. apply to_config_heap.
Qed.

(** ** The expiry scan *)

Lemma dict_get_set_is_None {K V} `{EqDecision K} (d : list (K * V)) k k' v :
  is_Some (dict_get k d) →
  dict_get k' (dict_set k v d) = None ↔ dict_get k' d = None.
Proof.
  intros [v0 Hk]. destruct (decide (k' = k)) as [->|Hne].
  - rewrite dict_get_set_eq, Hk. split; discriminate.
  - by rewrite dict_get_set_ne.
Qed.

Lemma update_message_None (mid mid' : Z) f (w : World) :
  dict_get mid' (messages (update_message mid f w)) = None ↔
  dict_get mid' (messages w) = None.
Proof.
  unfold update_message. destruct (dict_get mid (messages w)) eqn:Hm; [|done].
  cbn. apply dict_get_set_is_None. by rewrite Hm.
Qed.

Lemma message_None (e : Event) (w : World) :
  message e w = None ↔ dict_get (message_id e) (messages w) = None.
Proof. unfold message. destruct (dict_get _ _); cbn; split; congruence. Qed.

Lemma scan_step_refl (w : World) : scan_step w [] w.
Proof.
  split; try done.
  - intros l ev Hl. by left.
  - by rewrite app_nil_r.
Qed.

Lemma scan_step_trans (w w1 w2 : World) (e1 e2 : list Call) :
  scan_step w e1 w1 → scan_step w1 e2 w2 → scan_step w (e1 ++ e2) w2.
Proof.
  intros [Hn1 Hc1 Hh1 Hm1 Hl1 He1] [Hn2 Hc2 Hh2 Hm2 Hl2 He2]. split.
  - congruence.
  - congruence.
  - intros l ev Hl. destruct (Hh1 l ev Hl) as [H1|[Hexp H1]].
    + destruct (Hh2 l ev H1) as [H2|[Hexp2 H2]]; [by left|].
      right. split; [lia | done].
    + destruct (Hh2 l _ H1) as [H2|[Hexp2 H2]]; right; (split; [done|]); done.
  - intros mid. by rewrite Hm2, Hm1.
  - by rewrite Hl2, Hl1, app_assoc.
  - intros mid em [Hin|Hin]%in_app_or; [by eapply He1|].
    intros Hnone. apply Hm1 in Hnone. by eapply He2.
Qed.

Lemma scan_step_ended (w w' : World) (ext : list Call) (l : loc) (ev : Event) :
  scan_step w ext w' → heap w !! l = Some (set_ended true ev) →
  heap w' !! l = Some (set_ended true ev).
Proof.
  intros Hs Hl. by destruct (ss_heap _ _ _ Hs l _ Hl) as [H|[_ H]].
Qed.

Ltac fields :=
  cbn [heap cache config messages users now log set_heap set_cache set_config
       set_messages set_log log_call logged fst snd].

Lemma insert_same_or_ended (w : World) (l : loc) (ev : Event) :
  heap w !! l = Some ev → end_time ev ≤ now w →
  ∀ l' ev', heap w !! l' = Some ev' →
    same_or_ended w ev' (<[l := set_ended true ev]> (heap w) !! l').
Proof.
  intros Hl Hexp l' ev' Hl'.
  assert (Hlt : (l < length (heap w))%nat) by (by eapply lookup_lt_Some).
  destruct (decide (l' = l)) as [->|Hne].
  - rewrite list_lookup_insert_eq by done. right.
    assert (ev' = ev) as -> by congruence. done.
  - rewrite list_lookup_insert_ne by done. by left.
Qed.

(** One event of the scan: [end()] comes first, the fetch second. *)
Lemma expire_event_step (l : loc) (w : World) (ev : Event) :
  heap w !! l = Some ev →
  ∃ w' ext, expire_event l w = (Returned, w') ∧ scan_step w ext w' ∧
    (end_time ev ≤ now w →
       heap w' !! l = Some (set_ended true ev) ∧
       (message ev w ≠ None →
        In (EditMessage (message_id ev) (embed (set_ended true ev))) ext)).
Proof.
  intros Hl. unfold expire_event. rewrite Hl.
  assert (Hlt : (l < length (heap w))%nat) by (by eapply lookup_lt_Some).
  destruct (bool_decide (end_time ev ≤ now w)) eqn:Hexp.
  - apply bool_decide_eq_true in Hexp. cbn [end_].
    unfold message. cbn [message_id set_ended]. fields.
    destruct (dict_get (message_id ev) (messages w)) as [m|] eqn:Hm;
      cbn [mbind option_bind].
    + unfold edit_message, update_message. fields. rewrite Hm.
      rewrite bool_decide_eq_true_2 by eauto.
      eexists _, [EditMessage (message_id ev) (embed (set_ended true ev))].
      split; [reflexivity|]. split; [split; fields|].
      * done.
      * done.
      * by apply insert_same_or_ended.
      * intros mid. apply dict_get_set_is_None. by exists m.
      * done.
      * intros mid em [[= <- <-]|[]]. by rewrite Hm.
      * intros _. fields. split; [|intros _; by left].
        by rewrite list_lookup_insert_eq.
    + eexists _, []. split; [reflexivity|]. split; [split; fields|]; try done.
      * by apply insert_same_or_ended.
      * by rewrite app_nil_r.
      * intros _. fields. split; [by rewrite list_lookup_insert_eq|].
        intros Hc. by destruct Hc.
  - apply bool_decide_eq_false in Hexp.
    eexists _, []. split; [reflexivity|]. split; [apply scan_step_refl|].
    intros; lia.
Qed.

Lemma same_or_ended_expired (w w1 : World) (ev x : Event) (l : loc) (ext : list Call) :
  scan_step w ext w1 → heap w !! l = Some ev → heap w1 !! l = Some x →
  end_time ev ≤ now w →
  end_time x ≤ now w1 ∧ set_ended true x = set_ended true ev ∧
  message_id x = message_id ev.
Proof.
  intros Hs Hl Hx Hexp. rewrite (ss_now _ _ _ Hs).
  destruct (ss_heap _ _ _ Hs l ev Hl) as [H|[_ H]]; rewrite Hx in H;
    injection H as ->; done.
Qed.

Lemma expire_all_spec (ls : list loc) (w : World) :
  (∀ l, In l ls → is_Some (heap w !! l)) →
  ∃ w' ext, expire_all ls w = (Returned, w') ∧ scan_step w ext w' ∧
    ∀ l ev, In l ls → heap w !! l = Some ev → end_time ev ≤ now w →
      heap w' !! l = Some (set_ended true ev) ∧
      (message ev w ≠ None →
       In (EditMessage (message_id ev) (embed (set_ended true ev))) ext).
Proof.
  revert w. induction ls as [|l0 ls IH]; intros w Hok.
  - exists w, []. split; [done|]. split; [apply scan_step_refl|]. by intros ?? [].
  - destruct (Hok l0 (or_introl eq_refl)) as [ev0 Hl0].
    destruct (expire_event_step l0 w ev0 Hl0) as (w1 & e1 & Hrun & Hs1 & Hdone).
    destruct (IH w1) as (w2 & e2 & Hrun2 & Hs2 & Hrest).
    { intros l Hin. destruct (Hok l (or_intror Hin)) as [ev Hl].
      destruct (ss_heap _ _ _ Hs1 l ev Hl) as [H|[_ H]]; rewrite H; eauto. }
    exists w2, (e1 ++ e2). cbn [expire_all]. rewrite Hrun.
    split; [done|]. split; [by eapply scan_step_trans|].
    intros l ev Hin Hl Hexp.
    assert (is_Some (heap w1 !! l)) as [x Hx].
    { destruct (ss_heap _ _ _ Hs1 l ev Hl) as [H|[_ H]]; rewrite H; eauto. }
    destruct (same_or_ended_expired _ _ _ _ _ _ Hs1 Hl Hx Hexp) as (Hexp1 & Hsame & Hid).
    destruct Hin as [->|Hin'].
    + assert (ev = ev0) as -> by congruence.
      destruct (Hdone Hexp) as [Hh Hedit].
      split; [by eapply scan_step_ended|].
      intros Hfetch. apply in_or_app. left. by apply Hedit.
    + destruct (Hrest l x Hin' Hx Hexp1) as [Hh Hedit]. rewrite Hsame in Hh, Hedit.
      split; [done|]. intros Hfetch. apply in_or_app. right.
      rewrite <- Hid. apply Hedit. rewrite message_None, Hid.
      rewrite (ss_msgs _ _ _ Hs1). by rewrite <- message_None.
Qed.

Lemma expiry_scan_over_spec (snapshot : list (list (Z * loc))) (w : World) :
  (∀ gc l, In gc snapshot → In l (dict_values gc) → is_Some (heap w !! l)) →
  ∃ w' ext, expiry_scan_over snapshot w = (Returned, w') ∧ scan_step w ext w' ∧
    ∀ gc l ev, In gc snapshot → In l (dict_values gc) →
      heap w !! l = Some ev → end_time ev ≤ now w →
      heap w' !! l = Some (set_ended true ev) ∧
      (message ev w ≠ None →
       In (EditMessage (message_id ev) (embed (set_ended true ev))) ext).
Proof.
  revert w. induction snapshot as [|gc0 gcs IH]; intros w Hok.
  - exists w, []. split; [done|]. split; [apply scan_step_refl|]. by intros ??? [].
  - destruct (expire_all_spec (dict_values gc0) w) as (w1 & e1 & Hrun & Hs1 & Hdone).
    { intros l Hin. eapply Hok; [by left | done]. }
    destruct (IH w1) as (w2 & e2 & Hrun2 & Hs2 & Hrest).
    { intros gc l Hgc Hin. destruct (Hok gc l (or_intror Hgc) Hin) as [ev Hl].
      destruct (ss_heap _ _ _ Hs1 l ev Hl) as [H|[_ H]]; rewrite H; eauto. }
    exists w2, (e1 ++ e2). cbn [expiry_scan_over]. rewrite Hrun.
    split; [done|]. split; [by eapply scan_step_trans|].
    intros gc l ev Hgc Hin Hl Hexp.
    assert (is_Some (heap w1 !! l)) as [x Hx].
    { destruct (ss_heap _ _ _ Hs1 l ev Hl) as [H|[_ H]]; rewrite H; eauto. }
    destruct (same_or_ended_expired _ _ _ _ _ _ Hs1 Hl Hx Hexp) as (Hexp1 & Hsame & Hid).
    destruct Hgc as [->|Hgc].
    + destruct (Hdone l ev Hin Hl Hexp) as [Hh Hedit].
      split; [by eapply scan_step_ended|].
      intros Hfetch. apply in_or_app. left. by apply Hedit.
    + destruct (Hrest gc l x Hgc Hin Hx Hexp1) as [Hh Hedit].
      rewrite Hsame in Hh, Hedit. split; [done|].
      intros Hfetch. apply in_or_app. right.
      rewrite <- Hid. apply Hedit. rewrite message_None, Hid.
      rewrite (ss_msgs _ _ _ Hs1). by rewrite <- message_None.
Qed.

(** C10.  In the expiry scan every cached event whose end time has passed is
    ended before its message is fetched: after the scan the object the
    cache refers to is ended whether or not the message can be fetched.
    When it cannot, only the update of the embed is missing: no edit of
    that message is issued.  When it can, the edit with the final embed is
    issued. *)
Theorem expiry_scan_ends_before_fetch (w : World) (g k : Z)
    (data : list (Z * loc)) (l : loc) (event : Event) :
  cache_closed w = true →
  dict_get g (cache w) = Some data → dict_get k data = Some l →
  heap w !! l = Some event → end_time event ≤ now w →
  ∃ w' ext, expiry_scan w = (Returned, w') ∧
    cache w' = cache w ∧ log w' = log w ++ ext ∧
    heap w' !! l = Some (fst (end_ event)) ∧ ended (fst (end_ event)) = true ∧
    (message event w = None →
       message event w' = None ∧
       ∀ em, ¬ In (EditMessage (message_id event) em) ext) ∧
    (message event w ≠ None →
       In (EditMessage (message_id event) (snd (end_ event))) ext).
Proof.
  intros Hclosed Hg Hk Hl Hexp. unfold expiry_scan.
  destruct (expiry_scan_over_spec (dict_values (cache w)) w)
    as (w' & ext & Hrun & Hs & Hall).
  { intros gc l0 Hgc Hl0. unfold cache_closed in Hclosed.
    rewrite forallb_forall in Hclosed. specialize (Hclosed gc Hgc).
    rewrite forallb_forall in Hclosed. specialize (Hclosed l0 Hl0).
    by apply bool_decide_eq_true in Hclosed. }
  exists w', ext. split; [done|].
  destruct (Hall data l event (dict_get_In _ _ _ Hg) (dict_get_In _ _ _ Hk) Hl Hexp)
    as [Hh Hedit].
  split; [apply (ss_cache _ _ _ Hs)|]. split; [apply (ss_log _ _ _ Hs)|].
  split; [done|]. split; [done|]. split; [|done].
  intros Hnone. split.
  - rewrite message_None in *. by apply (ss_msgs _ _ _ Hs).
  - intros em Hin. apply (ss_edits _ _ _ Hs) in Hin. by apply message_None in Hnone.
Qed.

(** ** The platform calls *)

Lemma dict_get_update_message (mid : Z) f (w : World) :
  dict_get mid (messages (update_message mid f w)) = f <$> dict_get mid (messages w).
Proof.
  unfold update_message. destruct (dict_get mid (messages w)) eqn:E; fields.
  - by rewrite dict_get_set_eq.
  - by rewrite E.
Qed.

Lemma update_message_heap (mid : Z) f (w : World) : heap (update_message mid f w) = heap w.
Proof. unfold update_message. by destruct (dict_get mid (messages w)). Qed.

Lemma update_message_cache (mid : Z) f (w : World) : cache (update_message mid f w) = cache w.
Proof. unfold update_message. by destruct (dict_get mid (messages w)). Qed.

Lemma update_message_users (mid : Z) f (w : World) : users (update_message mid f w) = users w.
Proof. unfold update_message. by destruct (dict_get mid (messages w)). Qed.

Lemma update_message_log (mid : Z) f (w : World) : log (update_message mid f w) = log w.
Proof. unfold update_message. by destruct (dict_get mid (messages w)). Qed.

Create Rewrite HintDb world.
#[local] Hint Rewrite update_message_heap update_message_cache update_message_users
  update_message_log dict_get_update_message : world.

(** Reads a field of a world built by the platform calls. *)
Ltac world :=
  unfold try_remove_reaction, try_clear_reactions, channel_send;
  repeat (progress (fields; autorewrite with world)).

Lemma try_remove_reaction_message mid e u w :
  dict_get mid (messages (try_remove_reaction mid e u w))
  = strip_reaction e u <$> dict_get mid (messages w).
Proof. by world. Qed.

Lemma send_dm_to (uid : Z) (dm : DM) (w : World) (u : User) :
  dict_get uid (users w) = Some u →
  send_dm uid dm w = (dm_open u, log_call (SendDM uid dm) w).
Proof. intros Hu. unfold send_dm. by rewrite Hu. Qed.

Lemma edit_message_found (mid : Z) (em : Embed) (w : World) (m : Message) :
  dict_get mid (messages w) = Some m →
  edit_message mid em w
  = (true, update_message mid (set_shown em) (log_call (EditMessage mid em) w)).
Proof.
  intros Hm. unfold edit_message. by rewrite bool_decide_eq_true_2 by eauto.
Qed.

(** A reaction the platform agreed to remove is gone. *)
Lemma drop_reaction_gone (r : string * Z) (rs : list (string * Z)) :
  ¬ In r (drop_reaction r rs).
Proof.
  induction rs as [|x rs IH]; simpl; [tauto|].
  destruct (decide (x = r)); [done|]. intros [->|Hin]; tauto.
Qed.

Lemma drop_reaction_other (r r' : string * Z) (rs : list (string * Z)) :
  r' ≠ r → In r' rs → In r' (drop_reaction r rs).
Proof.
  intros Hne. induction rs as [|x rs IH]; simpl; [tauto|].
  destruct (decide (x = r)) as [->|Hx]; intros [->|Hin]; simpl; tauto.
Qed.

Lemma strip_reaction_gone (e : string) (u : Z) (m : Message) :
  can_manage m = true → ¬ In (e, u) (reactions (strip_reaction e u m)).
Proof. unfold strip_reaction. intros ->. apply drop_reaction_gone. Qed.

Lemma strip_reaction_other (e e' : string) (u : Z) (m : Message) :
  e' ≠ e → In (e', u) (reactions m) → In (e', u) (reactions (strip_reaction e u m)).
Proof.
  intros Hne Hin. unfold strip_reaction. destruct (can_manage m); [|done].
  apply drop_reaction_other; [congruence | done].
Qed.

(** ** The roster *)

Lemma find_entrant_user (uid : Z) (es : list Entrant) (en : Entrant) :
  find_entrant uid es = Some en → user_id en = uid ∧ In en es.
Proof.
  induction es as [|x es IH]; simpl; [done|].
  destruct (decide (user_id x = uid)).
  - intros [= ->]. auto.
  - intros H. destruct (IH H). auto.
Qed.

Lemma find_entrant_None (uid : Z) (es : list Entrant) :
  ¬ In uid (map user_id es) → find_entrant uid es = None.
Proof.
  induction es as [|x es IH]; simpl; [done|].
  intros Hnin. destruct (decide (user_id x = uid)); [tauto|]. apply IH. tauto.
Qed.

(** Under the invariant, removing the entrant found for a user leaves no
    entrant for that user. *)
Lemma remove_found_entrant (e : Event) (uid : Z) (en : Entrant) :
  one_entrant_per_user e → get_entrant e uid = Some en →
  get_entrant (remove_entrant e en) uid = None.
Proof.
  unfold one_entrant_per_user, get_entrant, remove_entrant. cbn [entrants set_entrants].
  induction (entrants e) as [|x es IH]; simpl; [done|].
  intros [Hx Hnd]%NoDup_cons. destruct (decide (user_id x = uid)) as [Hu|Hu].
  - intros [= ->]. rewrite decide_True by done.
    apply find_entrant_None. rewrite <- Hu. by rewrite <- list_elem_of_In.
  - intros Hf. destruct (decide (en = x)) as [->|Hne].
    + apply find_entrant_user in Hf. tauto.
    + simpl. rewrite decide_False by done. by apply IH.
Qed.

(** ** Dispatch on the emoji *)




Lemma dispatch ck ecd csd (payload : Payload) (script : list WaitResult)
    (w : World) (l : loc) (event : Event) (m : Message) (user : User) :
  reaches payload w l event m user →
  on_raw_reaction_add ck ecd csd payload script w =
    let uid := payload_user_id payload in
    let emoji := payload_emoji payload in
    let mid := message_id event in
    match dict_get emoji ecd with
    | None =>
        if negb (bool_decide (emoji ∈ [END_EMOJI; LEAVE_EMOJI])) then
          (Returned, try_remove_reaction mid emoji uid w)
        else if bool_decide (emoji = END_EMOJI) then end_event l event mid uid w
        else if bool_decide (emoji = LEAVE_EMOJI) then leave_event l event mid uid w
        else (Returned, w)
    | Some class_name =>
        class_signup ck csd l event mid (msg_channel m) uid emoji class_name script w
    end.
Proof.
  intros (g & data & Hg & Hg0 & Hdata & Hl & Hev & Hm & Hu & Hbot).
  unfold on_raw_reaction_add. rewrite Hg.
  rewrite bool_decide_eq_false_2 by done. rewrite Hdata.
  rewrite (dict_get_Some_truthy _ _ _ Hl). cbn [negb]. rewrite Hl, Hev.
  unfold message, get_user. rewrite Hm. cbn [mbind option_bind]. rewrite Hu, Hbot.
  done.
Qed.

(** ** The leave emoji *)


(** The run of the counterexample: the entrant is removed, the handler
    raises [Forbidden], and the message still shows what it showed. *)
Lemma closed_dm_leave_run :
  ∃ w',
    Demo.run (Demo.react Demo.member LEAVE_EMOJI) []
             (Demo.world [Demo.warrior_entry] (LEAVE_EMOJI, Demo.member) false)
    = (Raised Forbidden, w') ∧
    heap w' = [Demo.raid []] ∧
    log w' = [RemoveReaction 100 LEAVE_EMOJI Demo.member;
              SendDM Demo.member RemovedFromEvent] ∧
    dict_get 100 (messages w') = Some (mkMessage 5 [] None true).
Proof. eexists. split; [by vm_compute|]. by repeat split. Qed.


(** ** The end emoji *)


(** The run of the counterexample: the event is ended, the handler raises
    [Forbidden], and the message still shows what it showed. *)
Lemma closed_dm_end_run :
  ∃ w',
    Demo.run (Demo.react Demo.author END_EMOJI) []
             (Demo.world [] (END_EMOJI, Demo.author) false)
    = (Raised Forbidden, w') ∧
    heap w' = [set_ended true (Demo.raid [])] ∧
    log w' = [ClearReactions 100; SendDM Demo.author EventEnded] ∧
    dict_get 100 (messages w') = Some (mkMessage 5 [] None true).
Proof. eexists. split; [by vm_compute|]. by repeat split. Qed.


(** ** Spec selection *)

Lemma logged_nil (w : World) : logged [] w = w.
Proof. destruct w. unfold logged, set_log. cbn. by rewrite app_nil_r. Qed.

Lemma logged_logged (e1 e2 : list Call) (w : World) :
  logged e2 (logged e1 w) = logged (e1 ++ e2) w.
Proof. unfold logged, set_log. cbn. by rewrite app_assoc. Qed.

Lemma in_choices_range (k : Z) (n : nat) :
  in_choices k n = (1 <=? k) && (k <=? Z.of_nat n).
Proof.
  unfold in_choices, py_range. apply eq_true_iff_eq.
  rewrite bool_decide_eq_true, andb_true_iff, !Z.leb_le, list_elem_of_In.
  rewrite in_map_iff. split.
  - intros (i & <- & (j & <- & Hj%in_seq)%in_map_iff). lia.
  - intros [H1 Hn]. exists (k - 1). split; [lia|].
    apply in_map_iff. exists (Z.to_nat (k - 1)). split; [lia|]. apply in_seq. lia.
Qed.

Lemma decimal_value_digits ck (s : list N) (acc k : Z) :
  decimal_value ck acc s = Some k → forallb (is_digit_char ck) s = true.
Proof.
  revert acc. induction s as [|c s IH]; intros acc; simpl; [done|].
  unfold is_digit_char at 1. destruct (ck c); try done. intros H. by eapply IH.
Qed.

(** A string [int] accepts is a string of digits. *)
Lemma int_isdigit ck (s : list N) (k : Z) :
  int_ ck s = Some k → str_isdigit ck s = true.
Proof.
  unfold int_, str_isdigit. destruct s as [|c s]; [done|]. apply decimal_value_digits.
Qed.

(** Replies that are no choice are answered by the notice, each one, and
    the loop goes on with the rest of the script. *)
Lemma select_answer_retries ck (n : nat) (mid uid : Z) (emoji : string)
    (invalids : list (list N)) (rest : list WaitResult) (w : World) (user : User) :
  dict_get uid (users w) = Some user → dm_open user = true →
  forallb (invalid_reply ck n) invalids = true →
  select_answer ck n mid uid emoji (map Reply invalids ++ rest) w
  = select_answer ck n mid uid emoji rest
      (logged (repeat (SendDM uid (NotValidAnswer n)) (length invalids)) w).
Proof.
  intros Hu Hdm. revert w Hu. induction invalids as [|c cs IH]; intros w Hu Hall.
  - cbn [map app length repeat]. by rewrite logged_nil.
  - cbn [forallb] in Hall. apply andb_true_iff in Hall as [Hc Hcs].
    cbn [map app select_answer length repeat].
    rewrite (send_dm_to uid _ _ user Hu), Hdm.
    assert (Hgo : select_answer ck n mid uid emoji (map Reply cs ++ rest)
                    (log_call (SendDM uid (NotValidAnswer n)) w)
                  = select_answer ck n mid uid emoji rest
                      (logged (SendDM uid (NotValidAnswer n)
                               :: repeat (SendDM uid (NotValidAnswer n)) (length cs)) w)).
    { rewrite IH by done. f_equal.
      change (log_call (SendDM uid (NotValidAnswer n)) w)
        with (logged [SendDM uid (NotValidAnswer n)] w).
      by rewrite logged_logged. }
    unfold invalid_reply in Hc. apply orb_true_iff in Hc as [Hc|Hc].
    + by rewrite Hc.
    + destruct (int_ ck c) as [k|] eqn:Hk; [|done].
      rewrite (int_isdigit _ _ _ Hk). cbn [negb].
      rewrite in_choices_range. by rewrite Hc.
Qed.

(** ** The class emoji *)

Lemma dict_get_lookup {K V} `{EqDecision K} (d : list (K * V)) (i : nat) k v :
  dict_wf d → d !! i = Some (k, v) → dict_get k d = Some v.
Proof.
  unfold dict_wf, dict_keys. revert i.
  induction d as [|[k0 v0] d IH]; intros i Hnd Hi; [done|].
  cbn [map fst] in Hnd. apply NoDup_cons in Hnd as [Hk0 Hnd].
  destruct i as [|i]; cbn in Hi.
  - injection Hi as -> ->. cbn. by rewrite decide_True.
  - cbn. destruct (decide (k = k0)) as [->|Hne]; [|by eapply IH].
    exfalso. apply Hk0. apply list_elem_of_In, in_map_iff. exists (k0, v). split; [done|].
    apply list_elem_of_In. by eapply list_elem_of_lookup_2.
Qed.

Lemma after_cleanup_heap csd event mid uid w : heap (after_cleanup csd event mid uid w) = heap w.
Proof. unfold after_cleanup. destruct (previous_emoji _ _ _); by world. Qed.

Lemma after_cleanup_users csd event mid uid w : users (after_cleanup csd event mid uid w) = users w.
Proof. unfold after_cleanup. destruct (previous_emoji _ _ _); by world. Qed.

Lemma after_cleanup_log csd event mid uid w :
  log (after_cleanup csd event mid uid w) = log w ++ cleanup_calls csd event mid uid.
Proof.
  unfold after_cleanup, cleanup_calls. destruct (previous_emoji _ _ _); world; [done|].
  by rewrite app_nil_r.
Qed.

Lemma after_cleanup_message csd event mid uid w :
  dict_get mid (messages (after_cleanup csd event mid uid w))
  = cleanup_message csd event uid <$> dict_get mid (messages w).
Proof.
  unfold after_cleanup, cleanup_message. destruct (previous_emoji _ _ _); world; [done|].
  by destruct (dict_get mid (messages w)).
Qed.

#[local] Hint Rewrite after_cleanup_heap after_cleanup_users after_cleanup_log
  after_cleanup_message : world.

(** The branch up to the loop: clean-up, catalog lookup, prompt. *)
Lemma class_signup_prompt ck csd (l : loc) (event : Event) (mid cid uid : Z)
    (emoji cls : string) (details : ClassDetails) (script : list WaitResult)
    (w : World) (user : User) :
  previous_class_known csd event uid = true →
  dict_get cls csd = Some details →
  dict_get uid (users w) = Some user →
  let w1 := log_call (SendDM uid (spec_prompt cls details))
                     (after_cleanup csd event mid uid w) in
  class_signup ck csd l event mid cid uid emoji cls script w =
    if negb (dm_open user) then (Returned, channel_send cid uid w1)
    else
      match select_answer ck (length (valid_specs details)) mid uid emoji script w1 with
      | Stopped o w2 => (o, w2)
      | Answered answer w2 =>
          match valid_specs details !! Z.to_nat (answer - 1) with
          | None => (Raised IndexError, w2)
          | Some (sp, _) =>
              match dict_get sp (specs details) with
              | None => (Raised KeyError, w2)
              | Some sd =>
                  match categories sd with
                  | [] => (Raised IndexError, w2)
                  | cat :: _ =>
                      match heap w2 !! l with
                      | None => (Stuck, w2)
                      | Some ev =>
                          let ev' := add_entrant ev uid cls cat sp in
                          let w3 := set_heap (<[l := ev']> (heap w2)) w2 in
                          let '(ok, w4) := send_dm uid SignedUp w3 in
                          if negb ok then (Raised Forbidden, w4)
                          else
                            let '(ok, w5) := edit_message mid (embed ev') w4 in
                            if negb ok then (Raised NotFound, w5)
                            else (Returned, try_remove_reaction mid emoji uid w5)
                      end
                  end
              end
          end
      end.
Proof.
  intros Hprev Hcls Hu w1. unfold class_signup.
  assert (Hclean :
    match get_entrant event uid with
    | Some entrant =>
        match dict_get (category_class entrant) csd with
        | Some d => inr (try_remove_reaction mid (class_emoji d) uid w)
        | None => inl KeyError
        end
    | None => inr w
    end = inr (after_cleanup csd event mid uid w)).
  { unfold previous_class_known in Hprev. unfold after_cleanup, previous_emoji.
    destruct (get_entrant event uid) as [en|]; cbn [mbind option_bind]; [|done].
    apply bool_decide_eq_true in Hprev as [d Hd]. by rewrite Hd. }
  rewrite Hclean, Hcls.
  rewrite (send_dm_to uid _ _ user) by (by world).
  done.
Qed.

Lemma select_answer_valid ck (n : nat) (mid uid : Z) (emoji : string)
    (content : list N) (k : Z) (rest : list WaitResult) (w : World) :
  int_ ck content = Some k → 1 ≤ k ≤ Z.of_nat n →
  select_answer ck n mid uid emoji (Reply content :: rest) w = Answered k w.
Proof.
  intros Hk Hrange. cbn [select_answer].
  rewrite (int_isdigit _ _ _ Hk), Hk. cbn [negb]. rewrite in_choices_range.
  destruct (Z.leb_spec 1 k), (Z.leb_spec k (Z.of_nat n)); try lia. done.
Qed.

Lemma select_answer_timeout ck (n : nat) (mid uid : Z) (emoji : string)
    (rest : list WaitResult) (w : World) (user : User) :
  dict_get uid (users w) = Some user → dm_open user = true →
  select_answer ck n mid uid emoji (Timeout :: rest) w
  = Stopped Returned (try_remove_reaction mid emoji uid (log_call (SendDM uid TookTooLong) w)).
Proof. intros Hu Hdm. cbn [select_answer]. by rewrite (send_dm_to uid _ _ user Hu), Hdm. Qed.

Lemma strip_reaction_shown e u m : shown (strip_reaction e u m) = shown m.
Proof. unfold strip_reaction. by destruct (can_manage m). Qed.

Lemma strip_reaction_can_manage e u m : can_manage (strip_reaction e u m) = can_manage m.
Proof. unfold strip_reaction. by destruct (can_manage m) eqn:E. Qed.

Lemma cleanup_message_can_manage csd event uid m :
  can_manage (cleanup_message csd event uid m) = can_manage m.
Proof.
  unfold cleanup_message. destruct (previous_emoji _ _ _); [|done].
  apply strip_reaction_can_manage.
Qed.

(** C3.  When the reply to the prompt is the numeral of a number [n] between
    1 and the number of specs (after any number of replies that are no
    choice), the handler adds an entrant with the class of the emoji, the
    [n]-th spec of the class in listed order and the first category of that
    spec; then it sends the confirmation by DM, edits the message to the new
    embed and removes the triggering reaction, in this order. *)
Theorem class_signup_valid_reply ck ecd csd
    (payload : Payload) (w : World) (l : loc) (event : Event) (m : Message)
    (user : User) (cls : string) (details : ClassDetails)
    (invalids : list (list N)) (content : list N) (n : Z) (rest : list WaitResult)
    (sp : string) (sd : SpecDetails) (cat : string) :
  reaches payload w l event m user →
  dict_get (payload_emoji payload) ecd = Some cls →
  dict_get cls csd = Some details →
  dict_wf (specs details) →
  previous_class_known csd event (payload_user_id payload) = true →
  dm_open user = true →
  forallb (invalid_reply ck (length (specs details))) invalids = true →
  int_ ck content = Some n → 1 ≤ n →
  specs details !! Z.to_nat (n - 1) = Some (sp, sd) →
  head (categories sd) = Some cat →
  let uid := payload_user_id payload in
  let mid := message_id event in
  let emoji := payload_emoji payload in
  let event' := add_entrant event uid cls cat sp in
  ∃ w', on_raw_reaction_add ck ecd csd payload
          (map Reply invalids ++ Reply content :: rest) w = (Returned, w') ∧
    heap w' = <[l := event']> (heap w) ∧
    heap w' !! l = Some event' ∧
    entrants event' = entrants event ++ [mkEntrant uid cls cat sp] ∧
    log w' = log w ++ cleanup_calls csd event mid uid
                   ++ [SendDM uid (spec_prompt cls details)]
                   ++ repeat (SendDM uid (NotValidAnswer (length (specs details))))
                             (length invalids)
                   ++ [SendDM uid SignedUp; EditMessage mid (embed event');
                       RemoveReaction mid emoji uid] ∧
    ∃ m', dict_get mid (messages w') = Some m' ∧
          shown m' = Some (embed event') ∧
          (can_manage m = true → ¬ In (emoji, uid) (reactions m')).
Proof.
  intros Hreach Hcls Hdet Hwf Hprev Hdm Hinv Hint Hn1 Hnth Hcat uid mid emoji event'.
  rewrite (dispatch _ _ _ _ _ _ _ _ _ _ Hreach). cbn zeta. rewrite Hcls.
  destruct Hreach as (g & data & Hg & Hg0 & Hdata & Hl & Hev & Hm & Hu & Hbot).
  fold uid in Hu, Hprev. fold mid in Hm. fold uid. fold mid. fold emoji.
  assert (Hlt : (l < length (heap w))%nat) by (by eapply lookup_lt_Some).
  assert (Hlen : length (valid_specs details) = length (specs details))
    by (unfold valid_specs; apply length_map).
  assert (Hidx : (Z.to_nat (n - 1) < length (specs details))%nat)
    by (by eapply lookup_lt_Some).
  rewrite (class_signup_prompt ck csd l event mid _ uid emoji cls details _ w user)
    by done.
  cbn zeta. rewrite Hdm. cbn [negb]. rewrite Hlen.
  rewrite (select_answer_retries _ _ _ _ _ _ _ _ user) by (world; done).
  rewrite select_answer_valid with (k := n) by (done || lia).
  unfold valid_specs at 1. rewrite list_lookup_fmap, Hnth. cbn [fmap option_fmap option_map fst].
  rewrite (dict_get_lookup _ _ _ _ Hwf Hnth).
  destruct (categories sd) as [|cat0 cats] eqn:Hcats; [done|].
  cbn [head] in Hcat. injection Hcat as ->.
  world. rewrite Hev.
  rewrite (send_dm_to uid _ _ user) by (by world).
  rewrite Hdm. cbn [negb].
  rewrite (edit_message_found mid _ _ (cleanup_message csd event uid m))
    by (world; by rewrite Hm).
  cbn [negb]. eexists. split; [reflexivity|]. world. rewrite Hm.
  cbn [fmap option_fmap option_map].
  split; [done|]. split; [by rewrite list_lookup_insert_eq|]. split; [done|].
  split; [by rewrite <- !app_assoc|].
  eexists. split; [reflexivity|]. split; [by rewrite strip_reaction_shown|].
  intros Hcan. apply strip_reaction_gone. cbn [can_manage set_shown].
  by rewrite cleanup_message_can_manage.
Qed.

(** What the loop does with replies that are no choice and with a timeout:
    the replies are answered by the notice and waited for again, without
    bound; a timeout is answered by the cancellation notice and the removal
    of the triggering reaction.  The event is untouched in both cases. *)
Lemma spec_selection_retries_and_timeout ck ecd csd
    (payload : Payload) (w : World) (l : loc) (event : Event) (m : Message)
    (user : User) (cls : string) (details : ClassDetails)
    (invalids : list (list N)) (rest : list WaitResult) :
  reaches payload w l event m user →
  dict_get (payload_emoji payload) ecd = Some cls →
  dict_get cls csd = Some details →
  previous_class_known csd event (payload_user_id payload) = true →
  dm_open user = true →
  forallb (invalid_reply ck (length (specs details))) invalids = true →
  let uid := payload_user_id payload in
  let mid := message_id event in
  let emoji := payload_emoji payload in
  let before := cleanup_calls csd event mid uid
                ++ [SendDM uid (spec_prompt cls details)]
                ++ repeat (SendDM uid (NotValidAnswer (length (specs details))))
                          (length invalids) in
  (∃ w', on_raw_reaction_add ck ecd csd payload (map Reply invalids) w = (Suspended, w') ∧
     heap w' = heap w ∧ log w' = log w ++ before) ∧
  (∃ w', on_raw_reaction_add ck ecd csd payload (map Reply invalids ++ Timeout :: rest) w
         = (Returned, w') ∧
     heap w' = heap w ∧
     log w' = log w ++ before ++ [SendDM uid TookTooLong; RemoveReaction mid emoji uid] ∧
     ∃ m', dict_get mid (messages w') = Some m' ∧
           (can_manage m = true → ¬ In (emoji, uid) (reactions m'))).
Proof.
  intros Hreach Hcls Hdet Hprev Hdm Hinv uid mid emoji before.
  rewrite !(dispatch _ _ _ _ _ _ _ _ _ _ Hreach). cbn zeta. rewrite Hcls.
  destruct Hreach as (g & data & Hg & Hg0 & Hdata & Hl & Hev & Hm & Hu & Hbot).
  fold uid in Hu, Hprev. fold mid in Hm. fold uid. fold mid. fold emoji.
  assert (Hlen : length (valid_specs details) = length (specs details))
    by (unfold valid_specs; apply length_map).
  rewrite !(class_signup_prompt ck csd l event mid _ uid emoji cls details _ w user)
    by done.
  cbn zeta. rewrite Hdm. cbn [negb]. rewrite Hlen. subst before. split.
  - rewrite <- (app_nil_r (map Reply invalids)).
    rewrite (select_answer_retries _ _ _ _ _ _ _ _ user) by (world; done).
    cbn [select_answer]. eexists. split; [reflexivity|]. world.
    split; [done|]. by rewrite <- !app_assoc.
  - rewrite (select_answer_retries _ _ _ _ _ _ _ _ user) by (world; done).
    rewrite (select_answer_timeout _ _ _ _ _ _ _ user) by (world; done).
    eexists. split; [reflexivity|]. world. rewrite Hm.
    cbn [fmap option_fmap option_map].
    split; [done|]. split; [by rewrite <- !app_assoc|].
    eexists. split; [reflexivity|]. intros Hcan. apply strip_reaction_gone.
    by rewrite cleanup_message_can_manage.
Qed.

(** ** A refused prompt *)

(** C9 (as stated) fails: a member signed up as a warrior, whose direct
    messages are closed, reacts with the warrior emoji again.  The clean-up
    of the previous class's reaction removes that very reaction before the
    prompt is refused. *)
Lemma refused_prompt_drops_reaction :
  ¬ refused_prompt_keeps_reaction Demo.char_kind Demo.emoji_class_dict
      Demo.class_spec_dict (Demo.react Demo.member Demo.warrior) []
      (Demo.world [Demo.warrior_entry] (Demo.warrior, Demo.member) false).
Proof.
  intros Hclaim.
  destruct (Hclaim 0%nat (Demo.raid [Demo.warrior_entry])
              (Demo.posted (Demo.warrior, Demo.member)) (mkUser false false)
              "warrior"%string Demo.warrior_details)
    as (w' & m' & Hrun & _ & _ & Hm' & Hin).
  - exists 1, [(100, 0%nat)]. by repeat split.
  - reflexivity.
  - reflexivity.
  - reflexivity.
  - reflexivity.
  - by left.
  - vm_compute in Hrun. injection Hrun as <-. vm_compute in Hm'.
    injection Hm' as <-. destruct Hin.
Qed.

(** C9 (amended).  When the prompt cannot be delivered, the handler posts
    the failure notice in the channel of the message and returns: no
    entrant is created and the event is untouched.  The message is the one
    the clean-up of the previous class's reaction left, so the triggering
    reaction is still on it unless the user has an entrant whose class has
    that very emoji. *)
Theorem refused_prompt_aborts ck ecd csd
    (payload : Payload) (script : list WaitResult) (w : World)
    (l : loc) (event : Event) (m : Message) (user : User)
    (cls : string) (details : ClassDetails) :
  reaches payload w l event m user →
  dict_get (payload_emoji payload) ecd = Some cls →
  dict_get cls csd = Some details →
  previous_class_known csd event (payload_user_id payload) = true →
  dm_open user = false →
  let uid := payload_user_id payload in
  let mid := message_id event in
  let emoji := payload_emoji payload in
  ∃ w', on_raw_reaction_add ck ecd csd payload script w = (Returned, w') ∧
    heap w' = heap w ∧ heap w' !! l = Some event ∧
    log w' = log w ++ cleanup_calls csd event mid uid
                   ++ [SendDM uid (spec_prompt cls details);
                       ChannelSend (msg_channel m) uid] ∧
    dict_get mid (messages w') = Some (cleanup_message csd event uid m) ∧
    (previous_emoji csd event uid ≠ Some emoji →
     In (emoji, uid) (reactions m) →
     In (emoji, uid) (reactions (cleanup_message csd event uid m))).
Proof.
  intros Hreach Hcls Hdet Hprev Hdm uid mid emoji.
  rewrite (dispatch _ _ _ _ _ _ _ _ _ _ Hreach). cbn zeta. rewrite Hcls.
  destruct Hreach as (g & data & Hg & Hg0 & Hdata & Hl & Hev & Hm & Hu & Hbot).
  fold uid in Hu, Hprev. fold mid in Hm. fold uid. fold mid. fold emoji.
  rewrite (class_signup_prompt ck csd l event mid _ uid emoji cls details _ w user)
    by done.
  cbn zeta. rewrite Hdm. cbn [negb]. eexists. split; [reflexivity|]. world.
  rewrite Hm. cbn [fmap option_fmap option_map].
  split; [done|]. split; [done|]. split; [by rewrite <- !app_assoc|].
  split; [done|]. intros Hother Hin. unfold cleanup_message.
  destruct (previous_emoji csd event uid) as [e|]; [|done].
  apply strip_reaction_other; [congruence | done].
Qed.

(** ** Two runs of the handler *)

(** Inserting an entrant for a user who has one breaks the invariant,
    whatever the class and the spec. *)
Lemma add_entrant_duplicates (e : Event) (uid : Z) (en : Entrant) (c k s : string) :
  get_entrant e uid = Some en → ¬ one_entrant_per_user (add_entrant e uid c k s).
Proof.
  unfold get_entrant, one_entrant_per_user, add_entrant. cbn [entrants set_entrants].
  intros [Hu Hin]%find_entrant_user. rewrite map_app. cbn [map user_id].
  intros Hnd. apply NoDup_app in Hnd as (_ & Hdisj & _).
  apply (Hdisj uid); [|by left].
  rewrite <- Hu. apply list_elem_of_In, in_map. by apply Hin.
Qed.

(** C1.  A class swap on the code: a member signed up as a warrior reacts
    with the mage emoji and answers "2".  The handler removes the warrior
    reaction, never the warrior entry, and [add_entrant] inserts the mage
    entry: the roster, which had one entry per user, ends with two entries
    of the member. *)
Theorem class_swap_duplicates :
  one_entrant_per_user (Demo.raid [Demo.warrior_entry]) ∧
  ∃ w' event',
    Demo.run (Demo.react Demo.member Demo.mage) [Reply Demo.two]
             (Demo.world [Demo.warrior_entry] (Demo.mage, Demo.member) true)
    = (Returned, w') ∧
    heap w' !! 0%nat = Some event' ∧
    entrants event'
    = [Demo.warrior_entry; mkEntrant Demo.member "mage" "ranged" "fire"] ∧
    In (RemoveReaction 100 Demo.warrior Demo.member) (log w') ∧
    ¬ one_entrant_per_user event'.
Proof.
  split.
  - unfold one_entrant_per_user. cbn. apply NoDup_cons. split; [by intros ?%elem_of_nil|].
    apply NoDup_nil_2.
  - eexists _, _. split; [by vm_compute|]. split; [reflexivity|].
    split; [reflexivity|]. split; [by left|].
    unfold one_entrant_per_user. cbn. intros [Hnin _]%NoDup_cons.
    apply Hnin. by left.
Qed.

(** C4.  A reply the loop neither accepts nor answers: the superscript
    nine to a prompt with three specs.  [isdigit] holds, so [int] is
    called, and [int] raises [ValueError].  The handler stops there: no
    notice is sent, the later reply "2" is never waited for, and the
    triggering reaction stays on the message. *)
Theorem digit_reply_raises :
  str_isdigit Demo.char_kind Demo.superscript_nine = true ∧
  int_ Demo.char_kind Demo.superscript_nine = None ∧
  ∃ w',
    Demo.run (Demo.react Demo.member Demo.warrior)
             [Reply Demo.superscript_nine; Reply Demo.two]
             (Demo.world [] (Demo.warrior, Demo.member) true)
    = (Raised ValueError, w') ∧
    heap w' = [Demo.raid []] ∧
    log w' = [SendDM Demo.member (spec_prompt "warrior" Demo.warrior_details)] ∧
    dict_get 100 (messages w') = Some (Demo.posted (Demo.warrior, Demo.member)).
Proof.
  split; [reflexivity|]. split; [reflexivity|].
  eexists. split; [by vm_compute|]. by repeat split.
Qed.

(** ** The theorems at the concrete instance *)

(** The expired event of [Demo.late_world], whose message is gone, is
    ended by the scan, and no edit is issued. *)
Lemma expiry_scan_ends_before_fetch_witness :
  ∃ w' ext,
    expiry_scan Demo.late_world = (Returned, w') ∧
    cache w' = cache Demo.late_world ∧ log w' = log Demo.late_world ++ ext ∧
    heap w' !! 0%nat = Some (fst (end_ (Demo.raid [Demo.warrior_entry]))) ∧
    ended (fst (end_ (Demo.raid [Demo.warrior_entry]))) = true ∧
    (message (Demo.raid [Demo.warrior_entry]) Demo.late_world = None →
       message (Demo.raid [Demo.warrior_entry]) w' = None ∧
       ∀ em, ¬ In (EditMessage (message_id (Demo.raid [Demo.warrior_entry])) em) ext) ∧
    (message (Demo.raid [Demo.warrior_entry]) Demo.late_world ≠ None →
       In (EditMessage (message_id (Demo.raid [Demo.warrior_entry]))
                       (snd (end_ (Demo.raid [Demo.warrior_entry])))) ext).
Proof.
  apply (expiry_scan_ends_before_fetch Demo.late_world 1 100 [(100, 0%nat)] 0%nat
           (Demo.raid [Demo.warrior_entry]));
    [reflexivity | reflexivity | reflexivity | reflexivity | cbn; lia].
Defined.



(** A member reacts with the mage emoji and answers "9", "x" and "2". *)
Lemma class_signup_valid_reply_witness :
  ∃ w',
    Demo.run (Demo.react Demo.member Demo.mage)
             (map Reply [Demo.nine; Demo.letter] ++ [Reply Demo.two])
             (Demo.world [] (Demo.mage, Demo.member) true) = (Returned, w') ∧
    heap w' !! 0%nat
    = Some (Demo.raid [mkEntrant Demo.member "mage" "ranged" "fire"]) ∧
    log w' = [SendDM Demo.member (spec_prompt "mage" Demo.mage_details);
              SendDM Demo.member (NotValidAnswer 3);
              SendDM Demo.member (NotValidAnswer 3);
              SendDM Demo.member SignedUp;
              EditMessage 100
                (embed (Demo.raid [mkEntrant Demo.member "mage" "ranged" "fire"]));
              RemoveReaction 100 Demo.mage Demo.member].
Proof.
  destruct (class_signup_valid_reply Demo.char_kind Demo.emoji_class_dict
              Demo.class_spec_dict (Demo.react Demo.member Demo.mage)
              (Demo.world [] (Demo.mage, Demo.member) true)
              0%nat (Demo.raid []) (Demo.posted (Demo.mage, Demo.member))
              (mkUser false true) "mage"%string Demo.mage_details
              [Demo.nine; Demo.letter] Demo.two 2 []
              "fire"%string (mkSpec "<:fire:22>" ["ranged"%string]) "ranged"%string)
    as (w' & Hrun & _ & Hheap & _ & Hlog & _).
  - exists 1, [(100, 0%nat)]. by repeat split.
  - reflexivity.
  - reflexivity.
  - apply (bool_decide_unpack _). by vm_compute.
  - reflexivity.
  - reflexivity.
  - reflexivity.
  - reflexivity.
  - lia.
  - reflexivity.
  - reflexivity.
  - exists w'. split; [exact Hrun|]. split; [exact Hheap | exact Hlog].
Defined.

(** A member whose direct messages are closed reacts with the mage emoji:
    the reaction stays. *)
Lemma refused_prompt_aborts_witness :
  ∃ w',
    Demo.run (Demo.react Demo.member Demo.mage) []
             (Demo.world [Demo.warrior_entry] (Demo.mage, Demo.member) false)
    = (Returned, w') ∧
    heap w' = [Demo.raid [Demo.warrior_entry]] ∧
    log w' = [RemoveReaction 100 Demo.warrior Demo.member;
              SendDM Demo.member (spec_prompt "mage" Demo.mage_details);
              ChannelSend 5 Demo.member] ∧
    ∃ m', dict_get 100 (messages w') = Some m' ∧
          In (Demo.mage, Demo.member) (reactions m').
Proof.
  destruct (refused_prompt_aborts Demo.char_kind Demo.emoji_class_dict
              Demo.class_spec_dict (Demo.react Demo.member Demo.mage) []
              (Demo.world [Demo.warrior_entry] (Demo.mage, Demo.member) false)
              0%nat (Demo.raid [Demo.warrior_entry])
              (Demo.posted (Demo.mage, Demo.member)) (mkUser false false)
              "mage"%string Demo.mage_details)
    as (w' & Hrun & Hheap & _ & Hlog & Hmsg & Hstays).
  - exists 1, [(100, 0%nat)]. by repeat split.
  - reflexivity.
  - reflexivity.
  - reflexivity.
  - reflexivity.
  - exists w'. split; [exact Hrun|]. split; [exact Hheap|]. split; [exact Hlog|].
    eexists. split; [exact Hmsg|]. apply Hstays; [by vm_compute | by left].
Defined.

(** * Further properties of the cog *)

(** ** Reactions the handler ignores *)

Lemma cache_closed_lookup (w : World) (g k : Z) (data : list (Z * loc)) (l : loc) :
  cache_closed w = true →
  dict_get g (cache w) = Some data → dict_get k data = Some l →
  is_Some (heap w !! l).
Proof.
  intros Hclosed Hg Hk. unfold cache_closed in Hclosed.
  rewrite forallb_forall in Hclosed.
  specialize (Hclosed data (dict_get_In _ _ _ Hg)).
  rewrite forallb_forall in Hclosed.
  specialize (Hclosed l (dict_get_In _ _ _ Hk)).
  by apply bool_decide_eq_true in Hclosed.
Qed.

(** X1.  A reaction is dropped without any call and without any change of
    state when no event is cached under its guild and message, when the
    message of the event cannot be fetched, when the user is unknown to the
    bot, or when the user is a bot (the bot's own menu reactions among
    them). *)
Theorem reaction_ignored ck ecd csd (payload : Payload)
    (script : list WaitResult) (w : World) :
  cache_closed w = true →
  target payload w = None ∨
  (∃ l ev, target payload w = Some l ∧ heap w !! l = Some ev ∧ message ev w = None) ∨
  get_user (payload_user_id payload) w = None ∨
  (∃ u, get_user (payload_user_id payload) w = Some u ∧ bot u = true) →
  on_raw_reaction_add ck ecd csd payload script w = (Returned, w).
Proof.
  intros Hclosed Hcase. unfold on_raw_reaction_add, target in *.
  destruct (payload_guild_id payload) as [g|]; [|done]. cbn [mbind option_bind] in Hcase.
  destruct (bool_decide (g = 0)); [done|].
  destruct (dict_get g (cache w)) as [data|] eqn:Hg; [|done].
  cbn [mbind option_bind] in Hcase.
  destruct (dict_truthy data); [|done]. cbn [negb].
  destruct (dict_get (payload_message_id payload) data) as [l|] eqn:Hl; [|done].
  destruct (cache_closed_lookup _ _ _ _ _ Hclosed Hg Hl) as [ev Hev]. rewrite Hev.
  destruct (message ev w) as [[mid cid]|] eqn:Hmsg; [|done].
  destruct (get_user (payload_user_id payload) w) as [u|] eqn:Hu; [|done].
  destruct (bot u) eqn:Hbot; [done|].
  destruct Hcase as [Hc|[(l' & ev' & Hc & Hev' & Hm')|[Hc|(u' & Hc & Hb)]]].
  - done.
  - injection Hc as <-. rewrite Hev in Hev'. injection Hev' as <-. congruence.
  - done.
  - injection Hc as <-. congruence.
Qed.

(** ** Unknown emojis *)

Lemma dict_get_None_keys {K V} `{EqDecision K} (d : list (K * V)) (k : K) :
  dict_get k d = None ↔ ¬ In k (dict_keys d).
Proof.
  unfold dict_keys. induction d as [|[k' v] d IH]; simpl; [tauto|].
  destruct (decide (k = k')) as [->|Hne].
  - split; [done | tauto].
  - rewrite IH. split; [intros H [?|?]; [congruence | tauto] | tauto].
Qed.

(** X2.  The emojis the handler acts on are those of the menu the [event]
    command puts on the message.  Any other emoji is removed from the
    message and nothing else happens: no direct message, no edit, no change
    of any event. *)
Theorem unknown_emoji_only_stripped ck ecd csd (payload : Payload)
    (script : list WaitResult) (w : World)
    (l : loc) (event : Event) (m : Message) (user : User) :
  reaches payload w l event m user →
  ¬ In (payload_emoji payload) (reaction_menu ecd) →
  let uid := payload_user_id payload in
  let mid := message_id event in
  let emoji := payload_emoji payload in
  ∃ w', on_raw_reaction_add ck ecd csd payload script w = (Returned, w') ∧
    heap w' = heap w ∧ cache w' = cache w ∧
    log w' = log w ++ [RemoveReaction mid emoji uid] ∧
    dict_get mid (messages w') = Some (strip_reaction emoji uid m).
Proof.
  intros Hreach Hmenu uid mid emoji.
  rewrite (dispatch _ _ _ _ _ _ _ _ _ _ Hreach). cbn zeta.
  unfold reaction_menu in Hmenu. rewrite in_app_iff in Hmenu.
  assert (Hclass : dict_get (payload_emoji payload) ecd = None)
    by (apply dict_get_None_keys; tauto).
  rewrite Hclass. rewrite bool_decide_eq_false_2.
  2: { rewrite list_elem_of_In. tauto. }
  cbn [negb].
  destruct Hreach as (g & data & Hg & Hg0 & Hdata & Hl & Hev & Hm & Hu & Hbot).
  eexists. split; [reflexivity|]. world. fold mid in Hm. fold mid. rewrite Hm.
  by repeat split.
Qed.

(** ** What a reaction never touches *)

Lemma find_entrant_app_other (uid uid' : Z) (es : list Entrant) (en : Entrant) :
  user_id en = uid → uid' ≠ uid →
  find_entrant uid' (es ++ [en]) = find_entrant uid' es.
Proof.
  intros Hen Hne. induction es as [|x es IH]; simpl.
  - rewrite decide_False by congruence. done.
  - by destruct (decide (user_id x = uid')).
Qed.

Lemma find_entrant_remove_other (uid uid' : Z) (es : list Entrant) (en : Entrant) :
  user_id en = uid → uid' ≠ uid →
  find_entrant uid' (list_remove_first en es) = find_entrant uid' es.
Proof.
  intros Hen Hne. induction es as [|x es IH]; simpl; [done|].
  destruct (decide (en = x)) as [<-|Hx].
  - rewrite decide_False by congruence. done.
  - simpl. by destruct (decide (user_id x = uid')).
Qed.

Lemma evolves_refl (uid : Z) (ev : Event) : evolves uid ev ev.
Proof. by split. Qed.

Lemma evolves_trans (uid : Z) (e1 e2 e3 : Event) :
  evolves uid e1 e2 → evolves uid e2 e3 → evolves uid e1 e3.
Proof.
  intros H1 H2. split.
  - rewrite (ev_message_id _ _ _ H2). apply H1.
  - rewrite (ev_guild_id _ _ _ H2). apply H1.
  - rewrite (ev_author_id _ _ _ H2). apply H1.
  - rewrite (ev_channel_id _ _ _ H2). apply H1.
  - rewrite (ev_name _ _ _ H2). apply H1.
  - rewrite (ev_description _ _ _ H2). apply H1.
  - rewrite (ev_image_url _ _ _ H2). apply H1.
  - rewrite (ev_end_time _ _ _ H2). apply H1.
  - intros He. apply (ev_ended _ _ _ H2), (ev_ended _ _ _ H1), He.
  - intros uid' Hne. rewrite (ev_others _ _ _ H2 uid' Hne). by apply H1.
Qed.

Lemma evolves_add (uid : Z) (ev : Event) (c k s : string) :
  evolves uid ev (add_entrant ev uid c k s).
Proof.
  split; try done. intros uid' Hne. unfold get_entrant, add_entrant.
  cbn [entrants set_entrants]. by apply find_entrant_app_other with (uid := uid).
Qed.

Lemma evolves_remove (uid : Z) (ev : Event) (en : Entrant) :
  get_entrant ev uid = Some en → evolves uid ev (remove_entrant ev en).
Proof.
  intros [Hu _]%find_entrant_user. split; try done.
  intros uid' Hne. unfold get_entrant, remove_entrant.
  cbn [entrants set_entrants]. by apply find_entrant_remove_other with (uid := uid).
Qed.

Lemma evolves_end (uid : Z) (ev : Event) : evolves uid ev (set_ended true ev).
Proof. by split. Qed.

Lemma touches_refl (uid : Z) (l : option loc) (w : World) : touches uid l w w.
Proof.
  split; try done.
  - exists []. by rewrite app_nil_r.
  - intros l' ev Hev. exists ev. split; [done | apply evolves_refl].
Qed.

Lemma touches_trans (uid : Z) (l : option loc) (w1 w2 w3 : World) :
  touches uid l w1 w2 → touches uid l w2 w3 → touches uid l w1 w3.
Proof.
  intros [Hc1 Hg1 Hu1 Hn1 [e1 Hl1] Hlen1 Ho1 He1] [Hc2 Hg2 Hu2 Hn2 [e2 Hl2] Hlen2 Ho2 He2].
  split; try congruence.
  - exists (e1 ++ e2). by rewrite Hl2, Hl1, app_assoc.
  - intros l' Hne. by rewrite Ho2, Ho1.
  - intros l' ev Hev. destruct (He1 l' ev Hev) as (ev1 & Hev1 & Hs1).
    destruct (He2 l' ev1 Hev1) as (ev2 & Hev2 & Hs2).
    exists ev2. split; [done | by eapply evolves_trans].
Qed.

(** A step that only logs calls and edits messages. *)
Lemma touches_quiet (uid : Z) (l : option loc) (w w' : World) (ext : list Call) :
  heap w' = heap w → cache w' = cache w → config w' = config w →
  users w' = users w → now w' = now w → log w' = log w ++ ext →
  touches uid l w w'.
Proof.
  intros Hh Hc Hg Hu Hn Hl. split; try done; try (by rewrite Hh).
  - by exists ext.
  - intros l' ev Hev. exists ev. rewrite Hh. split; [done | apply evolves_refl].
Qed.

Lemma update_message_config (mid : Z) f (w : World) :
  config (update_message mid f w) = config w.
Proof. unfold update_message. by destruct (dict_get mid (messages w)). Qed.

Lemma update_message_now (mid : Z) f (w : World) : now (update_message mid f w) = now w.
Proof. unfold update_message. by destruct (dict_get mid (messages w)). Qed.

Lemma touches_log_call uid l c w : touches uid l w (log_call c w).
Proof. by apply touches_quiet with (ext := [c]). Qed.

Lemma touches_remove_reaction uid l mid e u w :
  touches uid l w (try_remove_reaction mid e u w).
Proof.
  apply touches_quiet with (ext := [RemoveReaction mid e u]); unfold try_remove_reaction;
    rewrite ?update_message_heap, ?update_message_cache, ?update_message_config,
      ?update_message_users, ?update_message_now, ?update_message_log; done.
Qed.

Lemma touches_clear_reactions uid l mid w : touches uid l w (try_clear_reactions mid w).
Proof.
  apply touches_quiet with (ext := [ClearReactions mid]); unfold try_clear_reactions;
    rewrite ?update_message_heap, ?update_message_cache, ?update_message_config,
      ?update_message_users, ?update_message_now, ?update_message_log; done.
Qed.

Lemma touches_send_dm uid l u dm w : touches uid l w (send_dm u dm w).2.
Proof. apply touches_log_call. Qed.

Lemma touches_edit_message uid l mid em w : touches uid l w (edit_message mid em w).2.
Proof.
  apply touches_quiet with (ext := [EditMessage mid em]); unfold edit_message; cbn [snd];
    rewrite ?update_message_heap, ?update_message_cache, ?update_message_config,
      ?update_message_users, ?update_message_now, ?update_message_log; done.
Qed.

(** The event at [l] is replaced by one it may evolve into. *)
Lemma touches_set_heap (uid : Z) (l : loc) (w : World) (ev ev' : Event) :
  heap w !! l = Some ev → evolves uid ev ev' →
  touches uid (Some l) w (set_heap (<[l := ev']> (heap w)) w).
Proof.
  intros Hev Hs.
  assert (Hlt : (l < length (heap w))%nat) by (by eapply lookup_lt_Some).
  split; try done.
  - exists []. fields. by rewrite app_nil_r.
  - fields. by rewrite length_insert.
  - intros l' Hne. fields. rewrite list_lookup_insert_ne; [done | congruence].
  - intros l' x Hx. fields. destruct (decide (l' = l)) as [->|Hne].
    + rewrite list_lookup_insert_eq by done. exists ev'. split; [done|]. congruence.
    + rewrite list_lookup_insert_ne by done. exists x. split; [done | apply evolves_refl].
Qed.

Lemma touches_select_answer ck (n : nat) (mid uid : Z) (emoji : string)
    (l : option loc) (script : list WaitResult) (w : World) :
  match select_answer ck n mid uid emoji script w with
  | Answered _ w' => touches uid l w w'
  | Stopped _ w' => touches uid l w w'
  end.
Proof.
  revert w. induction script as [|r script IH]; intros w; cbn [select_answer].
  - apply touches_refl.
  - assert (Hretry :
      match
        (let '(ok, w1) := send_dm uid (NotValidAnswer n) w in
         if ok then select_answer ck n mid uid emoji script w1
         else Stopped (Raised Forbidden) w1)
      with
      | Answered _ w' => touches uid l w w'
      | Stopped _ w' => touches uid l w w'
      end).
    { pose proof (touches_send_dm uid l uid (NotValidAnswer n) w) as Hs.
      destruct (send_dm uid (NotValidAnswer n) w) as [ok w1]. cbn [snd] in Hs.
      destruct ok; [|done]. specialize (IH w1).
      destruct (select_answer ck n mid uid emoji script w1);
        by eapply touches_trans. }
    destruct r as [content|].
    + destruct (str_isdigit ck content); cbn [negb]; [|exact Hretry].
      destruct (int_ ck content) as [k|]; [|apply touches_refl].
      destruct (in_choices k (n)); cbn [negb]; [apply touches_refl | exact Hretry].
    + pose proof (touches_send_dm uid l uid TookTooLong w) as Hs.
      destruct (send_dm uid TookTooLong w) as [ok w1]. cbn [snd] in Hs.
      destruct ok; [|done]. eapply touches_trans; [exact Hs|].
      apply touches_remove_reaction.
Qed.

Lemma touches_channel_send uid l cid u w : touches uid l w (channel_send cid u w).
Proof. apply touches_log_call. Qed.

Lemma touches_class_signup ck csd (l : loc) (event : Event) (mid cid uid : Z)
    (emoji cls : string) (script : list WaitResult) (w : World) :
  touches uid (Some l) w (class_signup ck csd l event mid cid uid emoji cls script w).2.
Proof.
  unfold class_signup.
  set (cleaned := match get_entrant event uid with
                  | Some entrant =>
                      match dict_get (category_class entrant) csd with
                      | Some d => inr (try_remove_reaction mid (class_emoji d) uid w)
                      | None => inl KeyError
                      end
                  | None => inr w
                  end).
  assert (Hclean : match cleaned with
                   | inl _ => True
                   | inr w0 => touches uid (Some l) w w0
                   end).
  { subst cleaned. destruct (get_entrant event uid) as [en|]; [|apply touches_refl].
    destruct (dict_get (category_class en) csd); [apply touches_remove_reaction | done]. }
  destruct cleaned as [e|w0]; [apply touches_refl|].
  destruct (dict_get cls csd) as [details|]; [|exact Hclean].
  pose proof (touches_send_dm uid (Some l) uid
                (SpecPrompt cls (prompt_lines (valid_specs details))) w0) as Hs.
  destruct (send_dm uid (SpecPrompt cls (prompt_lines (valid_specs details))) w0)
    as [ok w1]. cbn [snd] in Hs.
  assert (H1 : touches uid (Some l) w w1) by (by eapply touches_trans).
  destruct ok; cbn [negb].
  2: { cbn [snd]. eapply touches_trans; [exact H1 | apply touches_channel_send]. }
  pose proof (touches_select_answer ck (length (valid_specs details)) mid uid emoji
                (Some l) script w1) as Hsel.
  destruct (select_answer ck (length (valid_specs details)) mid uid emoji script w1)
    as [answer w2|o w2]; cbn [snd].
  2: { by eapply touches_trans. }
  assert (H2 : touches uid (Some l) w w2) by (by eapply touches_trans).
  destruct (valid_specs details !! Z.to_nat (answer - 1)) as [[sp ?]|]; [|exact H2].
  destruct (dict_get sp (specs details)) as [sd|]; [|exact H2].
  destruct (categories sd) as [|cat cats]; [exact H2|].
  destruct (heap w2 !! l) as [ev|] eqn:Hev; [|exact H2].
  pose proof (touches_set_heap uid l w2 ev (add_entrant ev uid cls cat sp) Hev
                (evolves_add uid ev cls cat sp)) as H3.
  set (w3 := set_heap (<[l:=add_entrant ev uid cls cat sp]> (heap w2)) w2) in *.
  pose proof (touches_send_dm uid (Some l) uid SignedUp w3) as H4.
  destruct (send_dm uid SignedUp w3) as [ok w4]. cbn [snd] in H4.
  assert (H5 : touches uid (Some l) w w4).
  { eapply touches_trans; [exact H2|]. by eapply touches_trans. }
  destruct ok; cbn [negb]; [|exact H5].
  pose proof (touches_edit_message uid (Some l) mid
                (embed (add_entrant ev uid cls cat sp)) w4) as H6.
  destruct (edit_message mid (embed (add_entrant ev uid cls cat sp)) w4) as [ok w5].
  cbn [snd] in H6.
  assert (H7 : touches uid (Some l) w w5) by (by eapply touches_trans).
  destruct ok; cbn [negb snd]; [|exact H7].
  eapply touches_trans; [exact H7 | apply touches_remove_reaction].
Qed.

Lemma touches_end_event (l : loc) (event : Event) (mid uid : Z) (w : World) :
  heap w !! l = Some event →
  touches uid (Some l) w (end_event l event mid uid w).2.
Proof.
  intros Hev. unfold end_event.
  destruct (bool_decide (author_id event = uid)); cbn [negb snd].
  2: { apply touches_remove_reaction. }
  cbn [end_].
  pose proof (touches_clear_reactions uid (Some l) mid w) as H1.
  set (w1 := try_clear_reactions mid w) in *.
  assert (Hev1 : heap w1 !! l = Some event).
  { subst w1. unfold try_clear_reactions. by rewrite update_message_heap. }
  pose proof (touches_set_heap uid l w1 event (set_ended true event) Hev1
                (evolves_end uid event)) as H2.
  set (w2 := set_heap (<[l:=set_ended true event]> (heap w1)) w1) in *.
  pose proof (touches_send_dm uid (Some l) uid EventEnded w2) as H3.
  destruct (send_dm uid EventEnded w2) as [ok w3]. cbn [snd] in H3.
  assert (H4 : touches uid (Some l) w w3).
  { eapply touches_trans; [exact H1|]. by eapply touches_trans. }
  destruct ok; cbn [negb]; [|exact H4].
  pose proof (touches_edit_message uid (Some l) mid (embed (set_ended true event)) w3) as H5.
  destruct (edit_message mid (embed (set_ended true event)) w3) as [ok w4].
  cbn [snd] in H5.
  assert (H6 : touches uid (Some l) w w4) by (by eapply touches_trans).
  by destruct ok.
Qed.

Lemma touches_leave_event (l : loc) (event : Event) (mid uid : Z) (w : World) :
  heap w !! l = Some event →
  touches uid (Some l) w (leave_event l event mid uid w).2.
Proof.
  intros Hev. unfold leave_event.
  pose proof (touches_remove_reaction uid (Some l) mid LEAVE_EMOJI uid w) as H1.
  set (w1 := try_remove_reaction mid LEAVE_EMOJI uid w) in *.
  assert (Hev1 : heap w1 !! l = Some event).
  { subst w1. unfold try_remove_reaction. by rewrite update_message_heap. }
  destruct (get_entrant event uid) as [en|] eqn:Hen.
  - pose proof (touches_set_heap uid l w1 event (remove_entrant event en) Hev1
                  (evolves_remove uid event en Hen)) as H2.
    set (w2 := set_heap (<[l:=remove_entrant event en]> (heap w1)) w1) in *.
    pose proof (touches_send_dm uid (Some l) uid RemovedFromEvent w2) as H3.
    destruct (send_dm uid RemovedFromEvent w2) as [ok w3]. cbn [snd] in H3.
    assert (H4 : touches uid (Some l) w w3).
    { eapply touches_trans; [exact H1|]. by eapply touches_trans. }
    destruct ok; cbn [negb]; [|exact H4].
    pose proof (touches_edit_message uid (Some l) mid (embed (remove_entrant event en)) w3)
      as H5.
    destruct (edit_message mid (embed (remove_entrant event en)) w3) as [ok w4].
    cbn [snd] in H5.
    assert (H6 : touches uid (Some l) w w4) by (by eapply touches_trans).
    by destruct ok.
  - pose proof (touches_send_dm uid (Some l) uid NotSignedUp w1) as H3.
    destruct (send_dm uid NotSignedUp w1) as [ok w2]. cbn [snd] in H3.
    assert (H4 : touches uid (Some l) w w2) by (by eapply touches_trans).
    by destruct ok.
Qed.

(** Every run of the handler, whatever the payload, the replies and the
    catalog. *)
Lemma handler_touches ck ecd csd (payload : Payload) (script : list WaitResult)
    (w : World) :
  touches (payload_user_id payload) (target payload w) w
          (on_raw_reaction_add ck ecd csd payload script w).2.
Proof.
  unfold on_raw_reaction_add, target.
  destruct (payload_guild_id payload) as [g|]; [|apply touches_refl].
  cbn [mbind option_bind].
  destruct (bool_decide (g = 0)); [apply touches_refl|].
  destruct (dict_get g (cache w)) as [data|]; [|apply touches_refl].
  cbn [mbind option_bind].
  destruct (dict_truthy data); cbn [negb]; [|apply touches_refl].
  destruct (dict_get (payload_message_id payload) data) as [l|]; [|apply touches_refl].
  destruct (heap w !! l) as [event|] eqn:Hev; [|apply touches_refl].
  destruct (message event w) as [[mid cid]|]; [|apply touches_refl].
  destruct (get_user (payload_user_id payload) w) as [u|]; [|apply touches_refl].
  destruct (bot u); [apply touches_refl|].
  destruct (dict_get (payload_emoji payload) ecd) as [cls|].
  - apply touches_class_signup.
  - destruct (bool_decide (payload_emoji payload ∈ [END_EMOJI; LEAVE_EMOJI]));
      cbn [negb]; [|apply touches_remove_reaction].
    destruct (bool_decide (payload_emoji payload = END_EMOJI));
      [by apply touches_end_event|].
    destruct (bool_decide (payload_emoji payload = LEAVE_EMOJI));
      [by apply touches_leave_event | apply touches_refl].
Qed.

(** X3.  A reaction never reaches beyond the event of its message: whatever
    the payload, the replies and the outcome (return, exception or pending
    wait), the cache, the stored configuration and the users are as
    before, no object is created or lost, every event other than the one
    cached under the payload's guild and message is unchanged, and the log
    of calls is only extended. *)
Theorem reaction_leaves_rest_alone ck ecd csd (payload : Payload)
    (script : list WaitResult) (w : World) :
  let w' := (on_raw_reaction_add ck ecd csd payload script w).2 in
  cache w' = cache w ∧ config w' = config w ∧ users w' = users w ∧
  length (heap w') = length (heap w) ∧
  (∃ ext, log w' = log w ++ ext) ∧
  ∀ l, target payload w ≠ Some l → heap w' !! l = heap w !! l.
Proof.
  destruct (handler_touches ck ecd csd payload script w). by repeat split.
Qed.

(** X4.  A reaction of one user never changes the signup of another: for
    every event and every other user the entrant is the same after the run
    as before.  Nor does a reaction rewrite an event's ids, name,
    description, image or end time, or reopen an ended event. *)
Theorem reaction_keeps_other_signups ck ecd csd (payload : Payload)
    (script : list WaitResult) (w : World) (l : loc) (ev : Event) :
  heap w !! l = Some ev →
  ∃ ev', heap (on_raw_reaction_add ck ecd csd payload script w).2 !! l = Some ev' ∧
    (∀ uid', uid' ≠ payload_user_id payload → get_entrant ev' uid' = get_entrant ev uid') ∧
    message_id ev' = message_id ev ∧ guild_id ev' = guild_id ev ∧
    author_id ev' = author_id ev ∧ channel_id ev' = channel_id ev ∧
    name ev' = name ev ∧ description ev' = description ev ∧
    image_url ev' = image_url ev ∧ end_time ev' = end_time ev ∧
    (ended ev = true → ended ev' = true).
Proof.
  intros Hev.
  destruct (t_event _ _ _ _ (handler_touches ck ecd csd payload script w) l ev Hev)
    as (ev' & Hev' & Hs).
  exists ev'. split; [done|]. destruct Hs. by repeat split.
Qed.

(** ** A member leaves the guild *)

Lemma list_remove_first_sublist (en : Entrant) (es : list Entrant) :
  list_remove_first en es `sublist_of` es.
Proof.
  induction es as [|x es IH]; simpl; [done|].
  destruct (decide (en = x)); [by apply sublist_cons | by apply sublist_skip].
Qed.

Lemma pruned_refl (uid : Z) (ev : Event) : pruned uid ev ev.
Proof. split; [apply evolves_refl | done]. Qed.

Lemma pruned_trans (uid : Z) (e1 e2 e3 : Event) :
  pruned uid e1 e2 → pruned uid e2 e3 → pruned uid e1 e3.
Proof.
  intros (Hs1 & He1 & Hl1) (Hs2 & He2 & Hl2). split; [by eapply evolves_trans|].
  split; [congruence | by etrans].
Qed.

Lemma pruned_remove (uid : Z) (ev : Event) (en : Entrant) :
  get_entrant ev uid = Some en → pruned uid ev (remove_entrant ev en).
Proof.
  intros Hen. split; [by apply evolves_remove|]. split; [done|].
  apply list_remove_first_sublist.
Qed.

Lemma pruned_invariant (uid : Z) (ev ev' : Event) :
  pruned uid ev ev' → one_entrant_per_user ev → one_entrant_per_user ev'.
Proof.
  intros (_ & _ & Hsub) Hinv. unfold one_entrant_per_user in *.
  eapply sublist_NoDup; [exact Hinv|]. by apply fmap_sublist.
Qed.

Lemma find_entrant_None_iff (uid : Z) (es : list Entrant) :
  find_entrant uid es = None ↔ ¬ In uid (map user_id es).
Proof.
  split; [|apply find_entrant_None].
  induction es as [|x es IH]; simpl; [tauto|].
  destruct (decide (user_id x = uid)); [done|]. intros H [?|?]; [done | by apply IH].
Qed.

Lemma pruned_gone (uid : Z) (ev ev' : Event) :
  pruned uid ev ev' → get_entrant ev uid = None → get_entrant ev' uid = None.
Proof.
  intros (_ & _ & Hsub). unfold get_entrant. rewrite !find_entrant_None_iff.
  intros Hnin Hin. apply Hnin. rewrite <- list_elem_of_In in *.
  eapply elem_of_sublist; [exact Hin|]. by apply fmap_sublist.
Qed.

(** One event of the loop. *)
Lemma drop_member_step (uid : Z) (l : loc) (w : World) (x : Event) :
  heap w !! l = Some x →
  ∃ w' x', drop_member uid l w = (Returned, w') ∧
    cache w' = cache w ∧ length (heap w') = length (heap w) ∧
    (∀ l', l' ≠ l → heap w' !! l' = heap w !! l') ∧
    heap w' !! l = Some x' ∧ pruned uid x x' ∧
    (get_entrant x uid = None → w' = w) ∧
    (one_entrant_per_user x → get_entrant x' uid = None).
Proof.
  intros Hx. unfold drop_member. rewrite Hx.
  assert (Hlt : (l < length (heap w))%nat) by (by eapply lookup_lt_Some).
  destruct (get_entrant x uid) as [en|] eqn:Hen.
  - assert (Hfinal : ∀ w', cache w' = cache w →
              heap w' = <[l := remove_entrant x en]> (heap w) →
              cache w' = cache w ∧ length (heap w') = length (heap w) ∧
              (∀ l', l' ≠ l → heap w' !! l' = heap w !! l') ∧
              heap w' !! l = Some (remove_entrant x en) ∧
              pruned uid x (remove_entrant x en) ∧
              (Some en = None → w' = w) ∧
              (one_entrant_per_user x → get_entrant (remove_entrant x en) uid = None)).
    { intros w' Hc Hh. rewrite Hh. split; [done|]. split; [by rewrite length_insert|].
      split; [intros l' Hne; by rewrite list_lookup_insert_ne|].
      split; [by rewrite list_lookup_insert_eq|].
      split; [by apply pruned_remove|]. split; [done|].
      intros Hinv. by apply remove_found_entrant. }
    unfold message. cbn [message_id remove_entrant set_entrants]. fields.
    destruct (dict_get (message_id x) (messages w)) as [m|] eqn:Hm;
      cbn [mbind option_bind].
    + unfold edit_message. fields. rewrite Hm.
      rewrite bool_decide_eq_true_2 by eauto.
      eexists _, _. split; [reflexivity|].
      apply Hfinal; by rewrite ?update_message_cache, ?update_message_heap.
    + eexists _, _. split; [reflexivity|]. by apply Hfinal.
  - exists w, x. split; [done|]. split; [done|]. split; [done|]. split; [done|].
    split; [done|]. split; [apply pruned_refl|]. by split.
Qed.

Lemma drop_member_all_spec (uid : Z) (ls : list loc) (w : World) :
  (∀ l, In l ls → is_Some (heap w !! l)) →
  ∃ w', drop_member_all uid ls w = (Returned, w') ∧
    cache w' = cache w ∧
    (∀ l, ¬ In l ls → heap w' !! l = heap w !! l) ∧
    ((∀ l ev, In l ls → heap w !! l = Some ev → get_entrant ev uid = None) → w' = w) ∧
    (∀ l ev, heap w !! l = Some ev →
       ∃ ev', heap w' !! l = Some ev' ∧ pruned uid ev ev' ∧
              (In l ls → one_entrant_per_user ev → get_entrant ev' uid = None)).
Proof.
  revert w. induction ls as [|l0 ls IH]; intros w Hok.
  - exists w. split; [done|]. repeat split; try done.
    intros l ev Hev. exists ev. split; [done|]. split; [apply pruned_refl | by intros []].
  - destruct (Hok l0 (or_introl eq_refl)) as [x Hx].
    destruct (drop_member_step uid l0 w x Hx)
      as (w1 & x' & Hrun & Hc1 & Hlen1 & Ho1 & Hx' & Hp1 & Hsame1 & Hgone1).
    assert (Hok1 : ∀ l, In l ls → is_Some (heap w1 !! l)).
    { intros l Hin. destruct (decide (l = l0)) as [->|Hne]; [by rewrite Hx'; eauto|].
      rewrite Ho1 by done. apply Hok. by right. }
    destruct (IH w1 Hok1) as (w2 & Hrun2 & Hc2 & Ho2 & Hsame2 & Hall2).
    exists w2. cbn [drop_member_all]. rewrite Hrun. split; [done|].
    split; [congruence|]. split; [|split].
    + intros l Hnin. rewrite Ho2 by (intros ?; apply Hnin; by right).
      apply Ho1. intros ->. apply Hnin. by left.
    + intros Hnone.
      assert (w1 = w) as -> by (apply Hsame1; eapply Hnone; [by left | done]).
      apply Hsame2. intros l ev Hin. apply Hnone. by right.
    + intros l ev Hev. destruct (decide (l = l0)) as [->|Hne].
      * assert (ev = x) as -> by congruence.
        destruct (Hall2 l0 x' Hx') as (ev' & Hev' & Hp2 & Hgone2).
        exists ev'. split; [done|]. split; [by eapply pruned_trans|].
        intros _ Hinv. by eapply pruned_gone; [exact Hp2 | apply Hgone1].
      * rewrite <- Ho1 in Hev by done.
        destruct (Hall2 l ev Hev) as (ev' & Hev' & Hp2 & Hgone2).
        exists ev'. split; [done|]. split; [done|].
        intros [->|Hin]; [done | by apply Hgone2].
Qed.

Lemma guild_objects_exist (w : World) (gid : Z) (data : list (Z * loc)) :
  cache_closed w = true → dict_get gid (cache w) = Some data →
  ∀ l, In l (dict_values data) → is_Some (heap w !! l).
Proof.
  intros Hclosed Hg l Hin. unfold cache_closed in Hclosed.
  rewrite forallb_forall in Hclosed. specialize (Hclosed data (dict_get_In _ _ _ Hg)).
  rewrite forallb_forall in Hclosed. specialize (Hclosed l Hin).
  by apply bool_decide_eq_true in Hclosed.
Qed.

(** X5.  A call of [on_member_leave] for a member and a guild returns, and
    it leaves an event cached under that guild whose roster has one entry
    per user without an entrant of the member; the roster keeps one entry
    per user, the entrants of all other users are the ones it had, and
    the ended flag is as before.  This is a statement about the coroutine
    when it is called: the platform library announces a departure under
    another name, so a member who really leaves triggers no such call. *)
Theorem member_leave_clears_event (gid uid k : Z) (w : World)
    (data : list (Z * loc)) (l : loc) (ev : Event) :
  cache_closed w = true →
  dict_get gid (cache w) = Some data → dict_get k data = Some l →
  heap w !! l = Some ev → one_entrant_per_user ev →
  ∃ w' ev', on_member_leave gid uid w = (Returned, w') ∧
    cache w' = cache w ∧ heap w' !! l = Some ev' ∧
    get_entrant ev' uid = None ∧ one_entrant_per_user ev' ∧
    (∀ uid', uid' ≠ uid → get_entrant ev' uid' = get_entrant ev uid') ∧
    ended ev' = ended ev.
Proof.
  intros Hclosed Hg Hk Hev Hinv. unfold on_member_leave. rewrite Hg.
  destruct (drop_member_all_spec uid (dict_values data) w
              (guild_objects_exist w gid data Hclosed Hg))
    as (w' & Hrun & Hc & _ & _ & Hall).
  destruct (Hall l ev Hev) as (ev' & Hev' & Hp & Hgone).
  exists w', ev'. split; [done|]. split; [done|]. split; [done|].
  split; [apply Hgone; [by eapply dict_get_In | done]|].
  split; [by eapply pruned_invariant|].
  destruct Hp as (Hs & He & _). split; [apply Hs | done].
Qed.

(** X6.  The departure of a member reaches the events of that guild only
    and, in them, the entrants of the member only: the cache is as before,
    an object that is not cached under the guild is unchanged, and in
    every event the entrants of the other users, the ids, the texts, the
    end time and the ended flag are as before. *)
Theorem member_leave_leaves_rest_alone (gid uid : Z) (w : World) :
  cache_closed w = true →
  ∃ w', on_member_leave gid uid w = (Returned, w') ∧ cache w' = cache w ∧
    (∀ l, (∀ data, dict_get gid (cache w) = Some data → ¬ In l (dict_values data)) →
          heap w' !! l = heap w !! l) ∧
    (∀ l ev, heap w !! l = Some ev →
       ∃ ev', heap w' !! l = Some ev' ∧ evolves uid ev ev' ∧ ended ev' = ended ev ∧
              entrants ev' `sublist_of` entrants ev).
Proof.
  intros Hclosed. unfold on_member_leave.
  destruct (dict_get gid (cache w)) as [data|] eqn:Hg.
  - destruct (drop_member_all_spec uid (dict_values data) w
                (guild_objects_exist w gid data Hclosed Hg))
      as (w' & Hrun & Hc & Ho & _ & Hall).
    exists w'. split; [done|]. split; [done|]. split.
    + intros l Hnin. apply Ho. by apply Hnin.
    + intros l ev Hev. destruct (Hall l ev Hev) as (ev' & Hev' & (Hs & He & Hsub) & _).
      by exists ev'.
  - exists w. split; [done|]. split; [done|]. split; [done|].
    intros l ev Hev. exists ev. split; [done|]. split; [apply evolves_refl|]. done.
Qed.

(** X7.  When the member has no entrant in any event of the guild (or the
    guild has no cached event at all), the departure changes nothing and
    issues no call: no message is edited. *)
Theorem member_leave_without_signup (gid uid : Z) (w : World) :
  cache_closed w = true →
  (∀ data l ev, dict_get gid (cache w) = Some data → In l (dict_values data) →
                heap w !! l = Some ev → get_entrant ev uid = None) →
  on_member_leave gid uid w = (Returned, w).
Proof.
  intros Hclosed Hnone. unfold on_member_leave.
  destruct (dict_get gid (cache w)) as [data|] eqn:Hg; [|done].
  destruct (drop_member_all_spec uid (dict_values data) w
              (guild_objects_exist w gid data Hclosed Hg))
    as (w' & Hrun & _ & _ & Hsame & _).
  rewrite Hrun. f_equal. apply Hsame. intros l ev. by apply Hnone.
Qed.

(** ** More on dictionaries *)

Section DictMore.
Context {K V : Type} `{EqDecision K}.
Implicit Types (d : list (K * V)) (k : K) (v : V).

Lemma dict_get_of_In d k v : dict_wf d → In (k, v) d → dict_get k d = Some v.
Proof.
  unfold dict_wf, dict_keys. induction d as [|[k0 v0] d IH]; simpl; [done|].
  intros [Hk0 Hnd]%NoDup_cons [[= -> ->]|Hin].
  - by rewrite decide_True.
  - destruct (decide (k = k0)) as [->|Hne]; [|by apply IH].
    exfalso. apply Hk0, list_elem_of_In, in_map_iff. by exists (k0, v).
Qed.

Lemma dict_get_In_pair d k v : dict_get k d = Some v → In (k, v) d.
Proof.
  induction d as [|[k0 v0] d IH]; simpl; [done|].
  destruct (decide (k = k0)) as [->|Hne]; [intros [= ->]; by left | right; auto].
Qed.

Lemma dict_set_In d k v x : In x (dict_set k v d) → x = (k, v) ∨ In x d.
Proof.
  induction d as [|[k0 v0] d IH]; simpl; [intros [<-|[]]; by left|].
  destruct (decide (k = k0)) as [->|Hne]; simpl.
  - intros [<-|Hin]; [by left | right; by right].
  - intros [<-|Hin]; [right; by left|]. destruct (IH Hin); [by left | right; by right].
Qed.

Lemma dict_set_keys_In d k v k' : In k' (dict_keys (dict_set k v d)) → k' = k ∨ In k' (dict_keys d).
Proof.
  unfold dict_keys. intros ([k0 v0] & <- & Hin)%in_map_iff.
  destruct (dict_set_In _ _ _ _ Hin) as [[= -> ->]|Hin']; [by left|].
  right. apply in_map_iff. by exists (k0, v0).
Qed.

Lemma dict_set_wf d k v : dict_wf d → dict_wf (dict_set k v d).
Proof.
  unfold dict_wf. induction d as [|[k0 v0] d IH]; simpl.
  - intros _. apply NoDup_singleton.
  - unfold dict_keys in *. cbn [map fst]. intros [Hk0 Hnd]%NoDup_cons.
    destruct (decide (k = k0)) as [->|Hne]; cbn [map fst].
    + by apply NoDup_cons.
    + apply NoDup_cons. split; [|by apply IH].
      intros Hin%list_elem_of_In. apply dict_set_keys_In in Hin as [->|Hin]; [done|].
      by apply Hk0, list_elem_of_In.
Qed.

Lemma dict_wf_app d k v : dict_wf d → dict_get k d = None → dict_wf (d ++ [(k, v)]).
Proof.
  unfold dict_wf, dict_keys. intros Hnd Hk. rewrite map_app. apply NoDup_app.
  split; [done|]. split; [|apply NoDup_singleton].
  intros x Hx ->%list_elem_of_singleton. apply dict_get_None_keys in Hk.
  apply Hk. by apply list_elem_of_In.
Qed.

Lemma dict_get_app_None d k k' v :
  dict_get k d = None → dict_get k' (d ++ [(k, v)]) = if decide (k' = k) then Some v else dict_get k' d.
Proof.
  induction d as [|[k0 v0] d IH]; simpl.
  - done.
  - destruct (decide (k = k0)); [done|]. intros Hk.
    destruct (decide (k' = k0)) as [->|Hne].
    + by rewrite decide_False by done.
    + by apply IH.
Qed.
End DictMore.

Lemma fold_left_nested {A B C} (f : A → C → A) (g : B → list C) (xs : list B) (a : A) :
  fold_left (λ a b, fold_left f (g b) a) xs a = fold_left f (concat (map g xs)) a.
Proof.
  revert a. induction xs as [|x xs IH]; intros a; simpl; [done|].
  by rewrite fold_left_app, IH.
Qed.

(** ** The flush *)

Lemma stored_config_set (gid mid : Z) (j : Json) (w : World) (g k : Z) :
  stored (config_set gid mid j w) g k
  = if decide (g = gid ∧ k = mid) then Some j else stored w g k.
Proof.
  unfold stored, config_set. fields.
  destruct (decide (g = gid)) as [->|Hg].
  - rewrite dict_get_set_eq. cbn [mbind option_bind].
    destruct (decide (k = mid)) as [->|Hk].
    + rewrite decide_True by done. apply dict_get_set_eq.
    + rewrite decide_False by tauto. rewrite dict_get_set_ne by done.
      by destruct (dict_get gid (config w)).
  - rewrite decide_False by tauto. by rewrite dict_get_set_ne.
Qed.

Lemma save_event_stored (w : World) (l : loc) (ev : Event) (g k : Z) :
  heap w !! l = Some ev →
  stored (save_event w l) g k
  = if decide (g = guild_id ev ∧ k = message_id ev) then Some (to_json ev)
    else stored w g k.
Proof. intros Hev. unfold save_event. rewrite Hev. apply stored_config_set. Qed.

Lemma save_event_dangling (w : World) (l : loc) : heap w !! l = None → save_event w l = w.
Proof. intros Hev. unfold save_event. by rewrite Hev. Qed.

(** A record no flushed event claims is left as it is. *)
Lemma saved_elsewhere (ls : list loc) (w : World) (g k : Z) :
  (∀ l ev, In l ls → heap w !! l = Some ev → ¬ (guild_id ev = g ∧ message_id ev = k)) →
  stored (fold_left save_event ls w) g k = stored w g k.
Proof.
  revert w. induction ls as [|l0 ls IH]; intros w Hno; simpl; [done|].
  rewrite IH.
  - destruct (heap w !! l0) as [ev|] eqn:Hev; [|by rewrite save_event_dangling].
    rewrite (save_event_stored _ _ _ _ _ Hev). rewrite decide_False; [done|].
    intros [-> ->]. by eapply Hno; [by left| |].
  - intros l ev Hin. rewrite (proj1 (proj2 (save_event_cache w l0))).
    apply Hno. by right.
Qed.

(** A record written for an event stays while no later event with the same
    ids differs from it. *)
Lemma saved_stays (ls : list loc) (w : World) (ev : Event) :
  (∀ l' ev', In l' ls → heap w !! l' = Some ev' →
             guild_id ev' = guild_id ev → message_id ev' = message_id ev → ev' = ev) →
  stored w (guild_id ev) (message_id ev) = Some (to_json ev) →
  stored (fold_left save_event ls w) (guild_id ev) (message_id ev) = Some (to_json ev).
Proof.
  revert w. induction ls as [|l1 ls IH]; intros w Huniq Hst; [done|].
  cbn [fold_left]. apply IH.
  - intros l' ev' Hl'. rewrite (proj1 (proj2 (save_event_cache w l1))).
    apply Huniq. by right.
  - destruct (heap w !! l1) as [ev1|] eqn:Hev1; [|by rewrite save_event_dangling].
    rewrite (save_event_stored _ _ _ _ _ Hev1).
    destruct (decide (guild_id ev = guild_id ev1 ∧ message_id ev = message_id ev1))
      as [[Hg Hk]|]; [|done].
    by rewrite (Huniq l1 ev1 (or_introl eq_refl) Hev1).
Qed.

(** The record of a flushed event, when no other flushed event has its
    ids. *)
Lemma saved_record (ls : list loc) (w : World) (l : loc) (ev : Event) :
  In l ls → heap w !! l = Some ev →
  (∀ l' ev', In l' ls → heap w !! l' = Some ev' →
             guild_id ev' = guild_id ev → message_id ev' = message_id ev → ev' = ev) →
  stored (fold_left save_event ls w) (guild_id ev) (message_id ev) = Some (to_json ev).
Proof.
  revert w. induction ls as [|l0 ls IH]; intros w Hin Hev Huniq; [done|].
  cbn [fold_left].
  assert (Hheap : heap (save_event w l0) = heap w) by apply save_event_cache.
  destruct Hin as [->|Hin].
  - apply saved_stays.
    + intros l' ev' Hl'. rewrite Hheap. apply Huniq. by right.
    + rewrite (save_event_stored _ _ _ _ _ Hev). by rewrite decide_True.
  - apply IH; [done | by rewrite Hheap |].
    intros l' ev' Hl'. rewrite Hheap. apply Huniq. by right.
Qed.

Lemma cache_keyed_spec (w : World) (g k : Z) (data : list (Z * loc)) (l : loc) :
  cache_keyed w = true → In (g, data) (cache w) → In (k, l) data →
  ∃ ev, heap w !! l = Some ev ∧ guild_id ev = g ∧ message_id ev = k.
Proof.
  unfold cache_keyed. rewrite forallb_forall. intros Hkeyed Hg Hk.
  specialize (Hkeyed _ Hg). rewrite forallb_forall in Hkeyed.
  specialize (Hkeyed _ Hk). cbn [fst snd] in Hkeyed.
  destruct (heap w !! l) as [ev|]; [|done].
  apply bool_decide_eq_true in Hkeyed. by exists ev.
Qed.

Lemma In_all_locs (c : list (Z * list (Z * loc))) (l : loc) :
  In l (concat (map dict_values (dict_values c))) →
  ∃ g data k, In (g, data) c ∧ In (k, l) data.
Proof.
  rewrite in_concat. intros (ls & Hls & Hl).
  apply in_map_iff in Hls as (data & <- & Hdata).
  apply in_map_iff in Hdata as ([g data'] & <- & Hg).
  apply in_map_iff in Hl as ([k l'] & <- & Hk). by exists g, data', k.
Qed.

Lemma all_locs_In (c : list (Z * list (Z * loc))) (g k : Z) (data : list (Z * loc)) (l : loc) :
  In (g, data) c → In (k, l) data → In l (concat (map dict_values (dict_values c))).
Proof.
  intros Hg Hk. apply in_concat. exists (dict_values data). split.
  - apply in_map, in_map_iff. by exists (g, data).
  - apply in_map_iff. by exists (k, l).
Qed.

Lemma nested_inner_wf {V} (c : list (Z * list (Z * V))) (g : Z) (data : list (Z * V)) :
  nested_wf c → In (g, data) c → dict_wf data.
Proof.
  intros [_ Hinner] Hin. rewrite Forall_forall in Hinner.
  apply (Hinner (g, data)). by apply list_elem_of_In.
Qed.

Lemma to_config_flat (w : World) :
  to_config w = fold_left save_event (concat (map dict_values (dict_values (cache w)))) w.
Proof. unfold to_config. apply fold_left_nested. Qed.

(** The record of a cached event after the flush. *)
Lemma flushed_record (w : World) (g k : Z) (ev : Event) :
  nested_wf (cache w) → cache_keyed w = true →
  cached_event w g k = Some ev →
  stored (to_config w) g k = Some (to_json ev).
Proof.
  intros Hnested Hkeyed Hcached. pose proof Hnested as [Hwf _]. rewrite to_config_flat.
  unfold cached_event in Hcached.
  destruct (dict_get g (cache w)) as [data|] eqn:Hg; [|done].
  cbn [mbind option_bind] in Hcached.
  destruct (dict_get k data) as [l|] eqn:Hk; [|done].
  cbn [mbind option_bind] in Hcached.
  pose proof (dict_get_In_pair _ _ _ Hg) as Hgin.
  pose proof (dict_get_In_pair _ _ _ Hk) as Hkin.
  destruct (cache_keyed_spec _ _ _ _ _ Hkeyed Hgin Hkin) as (ev0 & Hev0 & <- & <-).
  assert (ev0 = ev) as -> by congruence.
  apply saved_record with (l := l); [by eapply all_locs_In | done |].
  intros l' ev' Hl' Hev' Hg' Hk'.
  apply In_all_locs in Hl' as (g' & data' & k' & Hgin' & Hkin').
  destruct (cache_keyed_spec _ _ _ _ _ Hkeyed Hgin' Hkin') as (ev1 & Hev1 & <- & <-).
  assert (ev1 = ev') as -> by congruence.
  rewrite Hg' in Hgin'. rewrite Hk' in Hkin'.
  pose proof (dict_get_of_In _ _ _ Hwf Hgin') as Hg2.
  assert (data' = data) as -> by congruence.
  assert (Hdwf : dict_wf data) by (by eapply nested_inner_wf).
  pose proof (dict_get_of_In _ _ _ Hdwf Hkin') as Hk2.
  assert (l' = l) as -> by congruence. congruence.
Qed.

(** The record under a pair of ids after a flush of the objects [ls]: the
    last write wins, and an id no object owns is not written. *)
Lemma flushed_last_owned (ls : list loc) (w : World) (g k : Z) :
  stored (fold_left save_event ls w) g k
  = match last_owned g k (omap (λ l, heap w !! l) ls) with
    | Some ev => Some (to_json ev)
    | None => stored w g k
    end.
Proof.
  revert w. induction ls as [|l0 ls IH]; intros w; [done|].
  cbn [fold_left omap list_omap]. rewrite IH.
  assert (Hheap : heap (save_event w l0) = heap w) by apply save_event_cache.
  rewrite Hheap.
  destruct (heap w !! l0) as [ev0|] eqn:Hev0; [|by rewrite save_event_dangling].
  cbn [last_owned].
  destruct (last_owned g k (omap (λ l, heap w !! l) ls)) as [x|]; [done|].
  rewrite (save_event_stored _ _ _ _ _ Hev0).
  destruct (decide (g = guild_id ev0 ∧ k = message_id ev0)) as [[-> ->]|Hne].
  - by rewrite bool_decide_eq_true_2.
  - rewrite bool_decide_eq_false_2; [done|]. intros [<- <-]. by apply Hne.
Qed.

(** With every event cached under its own ids, the record under a pair of
    ids after the flush is the one of the event cached under them. *)
Lemma to_config_keyed (w : World) (g k : Z) :
  nested_wf (cache w) → cache_keyed w = true →
  stored (to_config w) g k
  = match cached_event w g k with
    | Some ev => Some (to_json ev)
    | None => stored w g k
    end.
Proof.
  intros Hnested Hkeyed. pose proof Hnested as [Hwf _].
  destruct (cached_event w g k) as [ev|] eqn:Hcached; [by apply flushed_record|].
  rewrite to_config_flat.
  apply saved_elsewhere. intros l ev Hl Hev [Hg Hk].
  apply In_all_locs in Hl as (g' & data' & k' & Hgin' & Hkin').
  destruct (cache_keyed_spec _ _ _ _ _ Hkeyed Hgin' Hkin') as (ev1 & Hev1 & <- & <-).
  assert (ev1 = ev) as -> by congruence.
  unfold cached_event in Hcached. rewrite <- Hg, <- Hk in Hcached.
  rewrite (dict_get_of_In _ _ _ Hwf Hgin') in Hcached. cbn [mbind option_bind] in Hcached.
  assert (Hdwf : dict_wf data') by (by eapply nested_inner_wf).
  rewrite (dict_get_of_In _ _ _ Hdwf Hkin') in Hcached.
  cbn [mbind option_bind] in Hcached. congruence.
Qed.

(** X8.  The flush writes every cached event under the guild and message
    id the event itself holds, whatever keys it is cached under, and
    touches no other record: after [to_config] the record stored under a
    pair of ids is the serialization of the last cached event, in the
    order of the flush, that holds these ids, and the record stored before
    when no cached event holds them.  When every event is cached under
    the ids it holds, that is the event cached under the pair. *)
Theorem to_config_stores_cached (w : World) (g k : Z) :
  stored (to_config w) g k
  = match last_owned g k (cached_events w) with
    | Some ev => Some (to_json ev)
    | None => stored w g k
    end ∧
  (nested_wf (cache w) → cache_keyed w = true →
   stored (to_config w) g k
   = match cached_event w g k with
     | Some ev => Some (to_json ev)
     | None => stored w g k
     end).
Proof.
  split; [|apply to_config_keyed].
  rewrite to_config_flat. apply flushed_last_owned.
Qed.

(** ** The load *)

Ltac fields_in H :=
  cbn [heap cache config messages users now log set_heap set_cache set_config
       set_messages set_log log_call logged fst snd] in H.

Lemma from_json_message_id (b : Red) (j : Json) (ev : Event) :
  from_json b j = Some ev →
  json_field "message_id" j ≫= as_num = Some (message_id ev).
Proof.
  unfold from_json. intros H.
  destruct (json_field "message_id" j ≫= as_num) as [mid|]; [|done].
  cbn [mbind option_bind] in H.
  repeat match type of H with
         | context [option_bind _ _ _ ?x] => destruct x; cbn [mbind option_bind] in H; [|done]
         | context [mbind _ ?x] => destruct x; cbn [mbind option_bind] in H; [|done]
         end.
  by injection H as <-.
Qed.

Lemma load_event_ok (gid : Z) (w : World) (j : Json) (ev : Event) :
  from_json TheBot j = Some ev →
  load_event gid w j
  = set_cache (dict_set gid (dict_set (message_id ev) (length (heap w))
                               (default [] (dict_get gid (cache w)))) (cache w))
              (set_heap (heap w ++ [ev]) w).
Proof.
  intros Hj. unfold load_event. by rewrite Hj, (from_json_message_id _ _ _ Hj).
Qed.

Lemma load_event_bad (gid : Z) (w : World) (j : Json) :
  from_json TheBot j = None → load_event gid w j = log_call LogException w.
Proof. intros Hj. unfold load_event. by rewrite Hj. Qed.

Lemma closed_lookup (w : World) (g k : Z) (data : list (Z * loc)) (l : loc) :
  closed w → dict_get g (cache w) = Some data → dict_get k data = Some l →
  (l < length (heap w))%nat.
Proof. intros Hc Hg Hk. eapply Hc; by eapply dict_get_In_pair. Qed.

Lemma cached_event_extend (w w' : World) (ev : Event) (g k : Z) :
  closed w → cache w' = cache w → heap w' = heap w ++ [ev] →
  cached_event w' g k = cached_event w g k.
Proof.
  intros Hc Hcache Hheap. unfold cached_event. rewrite Hcache, Hheap.
  destruct (dict_get g (cache w)) as [data|] eqn:Hg; [|done]. cbn [mbind option_bind].
  destruct (dict_get k data) as [l|] eqn:Hk; [|done]. cbn [mbind option_bind].
  apply lookup_app_l. by eapply closed_lookup.
Qed.

(** One record that loads. *)
Lemma load_event_ok_spec (gid : Z) (w : World) (j : Json) (ev : Event) :
  closed w → from_json TheBot j = Some ev →
  let w' := load_event gid w j in
  closed w' ∧ heap w' = heap w ++ [ev] ∧ config w' = config w ∧ log w' = log w ∧
  messages w' = messages w ∧ users w' = users w ∧
  ∀ g k, cached_event w' g k
         = if decide (g = gid ∧ k = message_id ev) then Some ev else cached_event w g k.
Proof.
  intros Hc Hj. cbn zeta. rewrite (load_event_ok _ _ _ _ Hj).
  set (g0 := default [] (dict_get gid (cache w))).
  assert (Hg0 : ∀ k l, In (k, l) g0 → (l < length (heap w))%nat).
  { intros k l Hin. subst g0. destruct (dict_get gid (cache w)) as [data|] eqn:Hg; [|done].
    cbn [default] in Hin. eapply Hc; [by eapply dict_get_In_pair | done]. }
  split; [|split; [done|]; split; [done|]; split; [done|]; split; [done|]; split; [done|]].
  - intros g data k l Hgin Hkin. fields_in Hgin. fields. rewrite length_app. cbn [length].
    apply dict_set_In in Hgin as [[= -> ->]|Hgin].
    + apply dict_set_In in Hkin as [[= -> ->]|Hkin]; [lia|].
      specialize (Hg0 _ _ Hkin). lia.
    + specialize (Hc _ _ _ _ Hgin Hkin). lia.
  - intros g k. unfold cached_event. fields.
    destruct (decide (g = gid)) as [->|Hg].
    + rewrite dict_get_set_eq. cbn [mbind option_bind].
      destruct (decide (k = message_id ev)) as [->|Hk].
      * rewrite dict_get_set_eq. cbn [mbind option_bind].
        rewrite decide_True by done. by apply list_lookup_middle.
      * rewrite decide_False by tauto. rewrite dict_get_set_ne by done.
        subst g0. destruct (dict_get gid (cache w)) as [data|] eqn:Hgd; [|done].
        cbn [default from_option id mbind option_bind].
        destruct (dict_get k data) as [l|] eqn:Hkd; [|done]. cbn [mbind option_bind].
        apply lookup_app_l. by eapply closed_lookup.
    + rewrite decide_False by tauto. rewrite dict_get_set_ne by done.
      destruct (dict_get g (cache w)) as [data|] eqn:Hgd; [|done].
      cbn [mbind option_bind].
      destruct (dict_get k data) as [l|] eqn:Hkd; [|done]. cbn [mbind option_bind].
      apply lookup_app_l. by eapply closed_lookup.
Qed.

Lemma unloadable_cons (j : Json) (js : list Json) :
  unloadable (j :: js)
  = ((if from_json TheBot j is None then 1 else 0) + unloadable js)%nat.
Proof.
  unfold unloadable. rewrite filter_cons.
  destruct (decide (from_json TheBot j = None)) as [->|Hj]; [done|].
  by destruct (from_json TheBot j).
Qed.

Lemma unloadable_app (js1 js2 : list Json) :
  unloadable (js1 ++ js2) = (unloadable js1 + unloadable js2)%nat.
Proof. unfold unloadable. by rewrite filter_app, length_app. Qed.

(** The records of one guild. *)
Lemma load_events_spec (gid : Z) (js : list Json) (w : World) :
  closed w →
  let w' := fold_left (load_event gid) js w in
  closed w' ∧ (∃ ext, heap w' = heap w ++ ext ∧ (length ext + unloadable js = length js)%nat) ∧
  config w' = config w ∧
  log w' = log w ++ repeat LogException (unloadable js) ∧
  messages w' = messages w ∧ users w' = users w ∧
  ∀ g k, cached_event w' g k
         = if decide (g = gid) then
             match last_loaded k js with
             | Some ev => Some ev
             | None => cached_event w g k
             end
           else cached_event w g k.
Proof.
  revert w. induction js as [|j js IH]; intros w Hc; cbn zeta.
  - cbn [fold_left last_loaded]. split; [done|]. split; [by exists []; rewrite app_nil_r|].
    split; [done|]. split; [by rewrite app_nil_r|]. split; [done|]. split; [done|].
    intros g k. by destruct (decide (g = gid)).
  - cbn [fold_left]. rewrite unloadable_cons.
    destruct (from_json TheBot j) as [ev|] eqn:Hj.
    + destruct (load_event_ok_spec gid w j ev Hc Hj) as (Hc1 & Hh1 & Hg1 & Hl1 & Hm1 & Hu1 & Hce1).
      destruct (IH _ Hc1) as (Hc2 & (ext & Hh2 & Hlen) & Hg2 & Hl2 & Hm2 & Hu2 & Hce2).
      split; [done|]. split.
      { exists (ev :: ext). rewrite Hh2, Hh1, <- app_assoc. split; [done|]. cbn. lia. }
      split; [congruence|]. split; [by rewrite Hl2, Hl1|].
      split; [congruence|]. split; [congruence|].
      intros g k. rewrite Hce2. cbn [last_loaded]. rewrite Hj.
      destruct (decide (g = gid)) as [->|Hg]; [|rewrite Hce1; by rewrite decide_False by tauto].
      destruct (last_loaded k js); [done|]. rewrite Hce1.
      destruct (decide (k = message_id ev)) as [->|Hk].
      * rewrite decide_True by done. by rewrite bool_decide_eq_true_2.
      * rewrite decide_False by tauto. by rewrite bool_decide_eq_false_2.
    + rewrite (load_event_bad _ _ _ Hj).
      assert (Hc1 : closed (log_call LogException w)) by done.
      destruct (IH _ Hc1) as (Hc2 & (ext & Hh2 & Hlen) & Hg2 & Hl2 & Hm2 & Hu2 & Hce2).
      split; [done|]. split; [exists ext; split; [done|]; cbn; lia|].
      split; [done|]. split; [rewrite Hl2; fields; by rewrite <- app_assoc|].
      split; [done|]. split; [done|].
      intros g k. rewrite Hce2. cbn [last_loaded]. rewrite Hj.
      destruct (decide (g = gid)); [|done]. by destruct (last_loaded k js).
Qed.

Lemma setdefault_spec (gid : Z) (w : World) :
  closed w →
  let w1 := set_cache (dict_setdefault gid [] (cache w)).1 w in
  closed w1 ∧ ∀ g k, cached_event w1 g k = cached_event w g k.
Proof.
  intros Hc. cbn zeta. unfold dict_setdefault.
  destruct (dict_get gid (cache w)) as [data|] eqn:Hg; cbn [fst].
  - split; [|done]. by destruct w.
  - split.
    + intros g data k l Hgin Hkin. fields_in Hgin. fields.
      apply in_app_or in Hgin as [Hgin|[[= <- <-]|[]]]; [by eapply Hc | done].
    + intros g k. unfold cached_event. fields. rewrite dict_get_app_None by done.
      destruct (decide (g = gid)) as [->|Hne]; [|done]. by rewrite Hg.
Qed.

(** The records of all guilds. *)
Lemma load_guilds_spec (entries : list (Z * list (Z * Json))) (w : World) :
  closed w → dict_wf entries →
  let w' := fold_left load_guild entries w in
  closed w' ∧
  (∃ ext, heap w' = heap w ++ ext ∧
          (length ext + unloadable (all_records entries) = length (all_records entries))%nat) ∧
  config w' = config w ∧
  log w' = log w ++ repeat LogException (unloadable (all_records entries)) ∧
  messages w' = messages w ∧ users w' = users w ∧
  ∀ g k, cached_event w' g k
         = match recs ← dict_get g entries; last_loaded k (dict_values recs) with
           | Some ev => Some ev
           | None => cached_event w g k
           end.
Proof.
  revert w. induction entries as [|[g0 recs0] entries IH]; intros w Hc Hwf; cbn zeta.
  - cbn. split; [done|]. split; [by exists []; rewrite app_nil_r|].
    split; [done|]. split; [by rewrite app_nil_r|]. done.
  - cbn [fold_left]. unfold dict_wf, dict_keys in Hwf. cbn [map fst] in Hwf.
    apply NoDup_cons in Hwf as [Hg0 Hwf].
    destruct (setdefault_spec g0 w Hc) as [Hc0 Hce0].
    assert (Hlg : load_guild w (g0, recs0)
                  = fold_left (load_event g0) (dict_values recs0)
                      (set_cache (dict_setdefault g0 [] (cache w)).1 w)) by done.
    rewrite Hlg.
    destruct (load_events_spec g0 (dict_values recs0) _ Hc0)
      as (Hc1 & (ext1 & Hh1 & Hlen1) & Hg1 & Hl1 & Hm1 & Hu1 & Hce1).
    destruct (IH _ Hc1 Hwf) as (Hc2 & (ext2 & Hh2 & Hlen2) & Hg2 & Hl2 & Hm2 & Hu2 & Hce2).
    assert (Hrec : all_records ((g0, recs0) :: entries)
                   = dict_values recs0 ++ all_records entries) by done.
    rewrite Hrec, unloadable_app, length_app.
    split; [done|]. split.
    { exists (ext1 ++ ext2). rewrite Hh2, Hh1. fields. rewrite <- app_assoc.
      split; [done|]. rewrite length_app. lia. }
    split; [by rewrite Hg2, Hg1|].
    split; [rewrite Hl2, Hl1; fields; by rewrite repeat_app, <- app_assoc|].
    split; [by rewrite Hm2, Hm1|]. split; [by rewrite Hu2, Hu1|].
    intros g k. rewrite Hce2, Hce1, Hce0. cbn [dict_get].
    destruct (decide (g = g0)) as [->|Hne].
    + assert (Hnone : dict_get g0 entries = None).
      { apply dict_get_None_keys. intros Hin. by apply Hg0, list_elem_of_In. }
      rewrite Hnone. cbn [mbind option_bind]. done.
    + done.
Qed.

Lemma cache_closed_closed (w : World) : cache_closed w = true ↔ closed w.
Proof.
  unfold cache_closed, closed. rewrite forallb_forall. split.
  - intros H g data k l Hg Hk.
    assert (Hd : In data (dict_values (cache w))).
    { apply in_map_iff. by exists (g, data). }
    specialize (H data Hd). rewrite forallb_forall in H.
    assert (Hl : In l (dict_values data)).
    { apply in_map_iff. by exists (k, l). }
    specialize (H l Hl). apply bool_decide_eq_true in H as [ev Hev].
    by eapply lookup_lt_Some.
  - intros H data Hd. apply in_map_iff in Hd as ([g data'] & <- & Hg).
    rewrite forallb_forall. intros l Hl. apply in_map_iff in Hl as ([k l'] & <- & Hk).
    apply bool_decide_eq_true. apply lookup_lt_is_Some. by eapply H.
Qed.

Lemma config_keyed_spec (c : list (Z * list (Z * Json))) :
  config_keyed c = true ↔
  ∀ g recs k j ev, In (g, recs) c → In (k, j) recs →
                   from_json TheBot j = Some ev → message_id ev = k.
Proof.
  unfold config_keyed. rewrite forallb_forall. split.
  - intros H g recs k j ev Hg Hk Hj. specialize (H _ Hg). rewrite forallb_forall in H.
    specialize (H _ Hk). cbn [fst snd] in H. rewrite Hj in H.
    by apply bool_decide_eq_true in H.
  - intros H [g recs] Hg. rewrite forallb_forall. intros [k j] Hk. cbn [fst snd].
    destruct (from_json TheBot j) as [ev|] eqn:Hj; [|done].
    apply bool_decide_eq_true. by eapply H.
Qed.

(** In a dictionary of records that sit under their own message ids, the
    last record that loads with id [k] is the record under [k]. *)
Lemma last_loaded_keyed (recs : list (Z * Json)) (k : Z) :
  dict_wf recs →
  (∀ k0 j ev, In (k0, j) recs → from_json TheBot j = Some ev → message_id ev = k0) →
  last_loaded k (dict_values recs) = dict_get k recs ≫= from_json TheBot.
Proof.
  unfold dict_wf, dict_keys.
  induction recs as [|[k0 j0] recs IH]; intros Hwf Hkeyed; [done|].
  cbn [map fst] in Hwf. apply NoDup_cons in Hwf as [Hk0 Hwf].
  cbn [dict_values map snd last_loaded dict_get].
  change (map snd recs) with (dict_values recs).
  rewrite IH; [|done | intros ??? Hin; apply Hkeyed; by right].
  destruct (decide (k = k0)) as [->|Hne].
  - assert (Hnone : dict_get k0 recs = None).
    { apply dict_get_None_keys. intros Hin. by apply Hk0, list_elem_of_In. }
    rewrite Hnone. cbn [mbind option_bind].
    destruct (from_json TheBot j0) as [ev|] eqn:Hj; [|done].
    rewrite bool_decide_eq_true_2; [done|]. by eapply Hkeyed; [left|].
  - destruct (dict_get k recs ≫= from_json TheBot) as [ev|]; [done|].
    destruct (from_json TheBot j0) as [ev|] eqn:Hj; [|done].
    rewrite bool_decide_eq_false_2; [done|].
    rewrite (Hkeyed k0 j0 ev (or_introl eq_refl) Hj). congruence.
Qed.

(** What the cache holds after a load. *)
Lemma to_cache_cached (w : World) (g k : Z) :
  closed w → nested_wf (config w) → config_keyed (config w) = true →
  cached_event (to_cache w) g k
  = match stored w g k ≫= from_json TheBot with
    | Some ev => Some ev
    | None => cached_event w g k
    end.
Proof.
  intros Hc Hwf Hkeyed. unfold to_cache.
  destruct (load_guilds_spec (config w) w Hc (proj1 Hwf)) as (_ & _ & _ & _ & _ & _ & Hce).
  rewrite Hce. unfold stored.
  destruct (dict_get g (config w)) as [recs|] eqn:Hg; [|done].
  cbn [mbind option_bind]. rewrite last_loaded_keyed; [done | |].
  - eapply nested_inner_wf; [exact Hwf | by eapply dict_get_In_pair].
  - intros k0 j ev Hin. rewrite config_keyed_spec in Hkeyed.
    eapply Hkeyed; [by eapply dict_get_In_pair | done].
Qed.

(** X9.  The load files every record that loads under the guild it is
    stored under and the message id the record itself holds, whatever key
    the record has in the store: after [to_cache] the cache holds, under a
    guild and a message id, the event decoded from the last record of that
    guild that loads with this message id, and the entry it held before
    when no record of the guild loads with it.  When every record is
    stored under the message id it holds, that is the record stored under
    the pair. *)
Theorem to_cache_loads_records (w : World) (g k : Z) :
  cache_closed w = true → dict_wf (config w) →
  cached_event (to_cache w) g k
  = match loaded (config w) g k with
    | Some ev => Some ev
    | None => cached_event w g k
    end ∧
  (nested_wf (config w) → config_keyed (config w) = true →
   cached_event (to_cache w) g k
   = match stored w g k ≫= from_json TheBot with
     | Some ev => Some ev
     | None => cached_event w g k
     end).
Proof.
  intros Hc%cache_closed_closed Hwf. split; [|by apply to_cache_cached].
  unfold to_cache, loaded.
  destruct (load_guilds_spec (config w) w Hc Hwf) as (_ & _ & _ & _ & _ & _ & Hce).
  apply Hce.
Qed.

(** X10.  A record that does not load costs one logged exception and
    nothing else: the load goes on with the other records.  The load
    creates one object per record that loads, never changes an object that
    existed, keeps every cache entry pointing at an object and leaves the
    store and the messages alone. *)
Theorem to_cache_skips_bad_records (w : World) :
  cache_closed w = true → dict_wf (config w) →
  let records := all_records (config w) in
  cache_closed (to_cache w) = true ∧
  (∃ ext, heap (to_cache w) = heap w ++ ext ∧
          (length ext + unloadable records = length records)%nat) ∧
  log (to_cache w) = log w ++ repeat LogException (unloadable records) ∧
  config (to_cache w) = config w ∧ messages (to_cache w) = messages w.
Proof.
  intros Hc%cache_closed_closed Hwf. cbn zeta. unfold to_cache.
  destruct (load_guilds_spec (config w) w Hc Hwf) as (Hc' & Hh & Hg & Hl & Hm & _ & _).
  split; [by apply cache_closed_closed|]. done.
Qed.

(** X11.  [setup] starts the cog with a cache read off the store alone:
    under a guild and a message id it holds the event decoded from the
    last record of that guild that loads with this message id, whatever
    key the record is stored under, and nothing when no record of the
    guild loads with it.  When every record is stored under the message
    id it holds, the cache holds exactly the stored events: the decoded
    record where the record under the pair loads, and nothing elsewhere. *)
Theorem setup_loads_store (w : World) (g k : Z) :
  dict_wf (config w) →
  cached_event (setup w) g k = loaded (config w) g k ∧
  (nested_wf (config w) → config_keyed (config w) = true →
   cached_event (setup w) g k = stored w g k ≫= from_json TheBot).
Proof.
  intros Hwf. unfold setup. split.
  - unfold to_cache, loaded.
    destruct (load_guilds_spec (config (set_cache [] w)) (set_cache [] w))
      as (_ & _ & _ & _ & _ & _ & Hce); [by intros ???? [] | done |].
    rewrite Hce. change (config (set_cache [] w)) with (config w).
    by destruct (recs ← dict_get g (config w); last_loaded k (dict_values recs)).
  - intros Hnested Hkeyed.
    rewrite to_cache_cached; [|by intros ???? []|done|done].
    change (stored (set_cache [] w) g k) with (stored w g k).
    by destruct (stored w g k ≫= from_json TheBot).
Qed.

(** ** Flush, clear, reload *)

Lemma nested_wf_set {V} (c : list (Z * list (Z * V))) (g k : Z) (v : V) :
  nested_wf c → nested_wf (dict_set g (dict_set k v (default [] (dict_get g c))) c).
Proof.
  intros Hn. pose proof Hn as [Hwf Hinner]. split; [by apply dict_set_wf|].
  apply Forall_forall. intros [g' data'] Hin%list_elem_of_In. cbn [snd].
  apply dict_set_In in Hin as [[= -> ->]|Hin]; [|by eapply nested_inner_wf].
  apply dict_set_wf. destruct (dict_get g c) as [data|] eqn:Hg; cbn [default].
  - eapply nested_inner_wf; [exact Hn | by eapply dict_get_In_pair].
  - apply NoDup_nil_2.
Qed.

Lemma save_event_config_ok (w : World) (l : loc) :
  nested_wf (config w) ∧ config_keyed (config w) = true →
  nested_wf (config (save_event w l)) ∧ config_keyed (config (save_event w l)) = true.
Proof.
  intros [Hwf Hkeyed]. unfold save_event. destruct (heap w !! l) as [ev|]; [|done].
  unfold config_set. fields. split; [by apply nested_wf_set|].
  apply config_keyed_spec. rewrite config_keyed_spec in Hkeyed.
  intros g recs k j ev' Hg Hk Hj.
  apply dict_set_In in Hg as [[= -> ->]|Hg]; [|by eapply Hkeyed].
  apply dict_set_In in Hk as [[= -> ->]|Hk].
  - rewrite from_json_to_json in Hj. by injection Hj as <-.
  - destruct (dict_get (guild_id ev) (config w)) as [recs|] eqn:Hrecs; [|done].
    eapply Hkeyed; [by eapply dict_get_In_pair | done | done].
Qed.

Lemma to_config_config_ok (w : World) :
  nested_wf (config w) → config_keyed (config w) = true →
  nested_wf (config (to_config w)) ∧ config_keyed (config (to_config w)) = true.
Proof.
  intros Hwf Hkeyed. rewrite to_config_flat.
  generalize (concat (map dict_values (dict_values (cache w)))). intros ls.
  assert (H : nested_wf (config w) ∧ config_keyed (config w) = true) by done.
  clear Hwf Hkeyed. revert w H. induction ls as [|l ls IH]; intros w H; [done|].
  cbn [fold_left]. by apply IH, save_event_config_ok.
Qed.

(** X12.  In a state where every event is cached under the guild and
    message id it holds, and every stored record that loads is stored
    under the message id it holds, flushing the cache, clearing it and
    loading it again loses no event: an event cached under a guild and
    message id is cached under them afterwards, with the same ids, texts,
    end time, entrants and ended flag.  This is the composition of
    [to_config], the clearing and [to_cache]; a run of [check_events]
    raises once the cache is cleared and never reaches the reload. *)
Theorem flush_and_reload_keeps_events (w : World) (g k : Z) (ev : Event) :
  nested_wf (cache w) → cache_keyed w = true →
  nested_wf (config w) → config_keyed (config w) = true →
  cached_event w g k = Some ev →
  cached_event (flush_and_reload w) g k = Some ev.
Proof.
  intros Hcwf Hckeyed Hwf Hkeyed Hev. unfold flush_and_reload.
  destruct (to_config_config_ok w Hwf Hkeyed) as [Hwf' Hkeyed'].
  rewrite to_cache_cached; [|by intros ???? []|done|done].
  change (stored (set_cache [] (to_config w)) g k) with (stored (to_config w) g k).
  rewrite (flushed_record w g k ev) by done.
  cbn [mbind option_bind]. by rewrite from_json_to_json.
Qed.

(** The condition on the store is needed: in [DemoStore.stale_world] the
    record under 101 holds the message id 100, is loaded after the flushed
    record of the raid and takes its place, and the entrant is lost. *)
Lemma flush_and_reload_stale_record :
  cached_event DemoStore.stale_world 1 100 = Some (Demo.raid [Demo.warrior_entry]) ∧
  cache_keyed DemoStore.stale_world = true ∧
  config_keyed (config DemoStore.stale_world) = false ∧
  cached_event (flush_and_reload DemoStore.stale_world) 1 100 = Some (Demo.raid []).
Proof. repeat split; by vm_compute. Qed.

(** ** The [event] command *)

Lemma dict_set_fresh {K V} `{EqDecision K} (d : list (K * V)) (k : K) (v : V) :
  dict_get k d = None → dict_set k v d = d ++ [(k, v)].
Proof.
  induction d as [|[k0 v0] d IH]; simpl; [done|].
  destruct (decide (k = k0)); [done|]. intros Hk. by rewrite IH.
Qed.

Lemma dict_set_app_last {K V} `{EqDecision K} (d : list (K * V)) (k : K) (v0 v : V) :
  dict_get k d = None → dict_set k v (d ++ [(k, v0)]) = d ++ [(k, v)].
Proof.
  induction d as [|[k1 v1] d IH]; simpl.
  - by rewrite decide_True.
  - destruct (decide (k = k1)); [done|]. intros Hk. by rewrite IH.
Qed.

Lemma cache_insert_eq (g mid : Z) (l : loc) (c : list (Z * list (Z * loc))) :
  cache_insert g mid l c = dict_set g (dict_set mid l (default [] (dict_get g c))) c.
Proof.
  unfold cache_insert, dict_setdefault. destruct (dict_get g c) as [data|] eqn:Hg.
  - done.
  - cbn [default from_option id]. rewrite dict_set_app_last by done.
    symmetry. by apply dict_set_fresh.
Qed.

(** A new object cached under a guild and a message id. *)
Lemma cache_insert_spec (gid mid : Z) (ev : Event) (w w' : World) :
  closed w →
  cache w' = cache_insert gid mid (length (heap w)) (cache w) →
  heap w' = heap w ++ [ev] →
  closed w' ∧
  ∀ g k, cached_event w' g k
         = if decide (g = gid ∧ k = mid) then Some ev else cached_event w g k.
Proof.
  intros Hc Hcache Hheap. rewrite cache_insert_eq in Hcache.
  set (g0 := default [] (dict_get gid (cache w))) in *.
  assert (Hg0 : ∀ k l, In (k, l) g0 → (l < length (heap w))%nat).
  { intros k l Hin. subst g0. destruct (dict_get gid (cache w)) as [data|] eqn:Hg; [|done].
    cbn [default from_option id] in Hin. eapply Hc; [by eapply dict_get_In_pair | done]. }
  split.
  - intros g data k l Hgin Hkin. rewrite Hcache in Hgin. rewrite Hheap, length_app.
    cbn [length].
    apply dict_set_In in Hgin as [[= -> ->]|Hgin].
    + apply dict_set_In in Hkin as [[= -> ->]|Hkin]; [lia|].
      specialize (Hg0 _ _ Hkin). lia.
    + specialize (Hc _ _ _ _ Hgin Hkin). lia.
  - intros g k. unfold cached_event. rewrite Hcache, Hheap.
    destruct (decide (g = gid)) as [->|Hg].
    + rewrite dict_get_set_eq. cbn [mbind option_bind].
      destruct (decide (k = mid)) as [->|Hk].
      * rewrite dict_get_set_eq. cbn [mbind option_bind].
        rewrite decide_True by done. by apply list_lookup_middle.
      * rewrite decide_False by tauto. rewrite dict_get_set_ne by done.
        subst g0. destruct (dict_get gid (cache w)) as [data|] eqn:Hgd; [|done].
        cbn [default from_option id mbind option_bind].
        destruct (dict_get k data) as [l|] eqn:Hkd; [|done]. cbn [mbind option_bind].
        apply lookup_app_l. by eapply closed_lookup.
    + rewrite decide_False by tauto. rewrite dict_get_set_ne by done.
      destruct (dict_get g (cache w)) as [data|] eqn:Hgd; [|done].
      cbn [mbind option_bind].
      destruct (dict_get k data) as [l|] eqn:Hkd; [|done]. cbn [mbind option_bind].
      apply lookup_app_l. by eapply closed_lookup.
Qed.

(** X13.  The command caches the new event under the guild of the
    invocation and the id of the message it posted, with the invoker as
    author, no entrant and not ended; every event cached before is still
    cached, unchanged.  The message is posted where the command was
    invoked, also when [--channel] names another channel, which the event
    then records as its channel. *)
Theorem event_command_registers ecd (ctx : Context) (flags : Flags)
    (msg_id : Z) (manage : bool) (w : World) :
  cache_closed w = true →
  let cid := channel_or (flag_channel_id flags) (ctx_channel ctx) in
  let ev := mkEvent msg_id (ctx_guild ctx) (ctx_author ctx) cid (flag_name flags)
                    (flag_description flags) (flag_image_url flags)
                    (flag_end_time flags) [] false in
  ∃ w', event_command ecd ctx flags (Some (msg_id, manage)) w
        = (Returned, w', reaction_menu ecd) ∧
    cached_event w' (ctx_guild ctx) msg_id = Some ev ∧
    (∀ g k, ¬ (g = ctx_guild ctx ∧ k = msg_id) → cached_event w' g k = cached_event w g k) ∧
    cache_closed w' = true ∧ heap w' = heap w ++ [ev] ∧ log w' = log w ∧
    dict_get msg_id (messages w')
    = Some (mkMessage (ctx_channel ctx) [] (Some (embed ev)) manage) ∧
    (∀ c, flag_channel_id flags = Some c → c ≠ 0 → channel_id ev = c) ∧
    (flag_channel_id flags = None ∨ flag_channel_id flags = Some 0 →
     channel_id ev = ctx_channel ctx).
Proof.
  intros Hc%cache_closed_closed. cbn zeta. unfold event_command.
  eexists. split; [reflexivity|].
  match goal with |- context [set_cache ?c ?w2] =>
    destruct (cache_insert_spec (ctx_guild ctx) msg_id
                (mkEvent msg_id (ctx_guild ctx) (ctx_author ctx)
                   (channel_or (flag_channel_id flags) (ctx_channel ctx))
                   (flag_name flags) (flag_description flags) (flag_image_url flags)
                   (flag_end_time flags) [] false)
                w (set_cache c w2) Hc eq_refl eq_refl) as [Hc' Hce]
  end.
  split; [rewrite Hce; by rewrite decide_True|].
  split; [intros g k Hne; rewrite Hce; by rewrite decide_False|].
  split; [by apply cache_closed_closed|].
  split; [done|]. split; [done|]. split; [fields; by rewrite dict_get_set_eq|].
  cbn [channel_id]. unfold channel_or. split.
  - intros c -> Hc0. by rewrite bool_decide_eq_false_2.
  - by intros [-> | ->].
Qed.

(** X14.  An event created by the command without [--channel], or with
    [--channel] naming the channel of the invocation, is open for signups
    at once: the channel the event records is the channel its message was
    posted in, and a reaction of a known user who is no bot on the posted
    message passes every guard of the reaction handler and reaches the
    dispatch on the emoji, with the new event and the posted message.
    Nothing is said of a command whose [--channel] names another channel:
    the event then records a channel its message is not in. *)
Theorem event_command_then_reaction ecd (ctx : Context) (flags : Flags)
    (msg_id : Z) (manage : bool) (w : World) (uid : Z) (emoji : string) (user : User) :
  ctx_guild ctx ≠ 0 →
  channel_or (flag_channel_id flags) (ctx_channel ctx) = ctx_channel ctx →
  dict_get uid (users w) = Some user → bot user = false →
  ∃ w' ev m,
    event_command ecd ctx flags (Some (msg_id, manage)) w
    = (Returned, w', reaction_menu ecd) ∧
    reaches (mkPayload (Some (ctx_guild ctx)) msg_id uid emoji) w'
            (length (heap w)) ev m user ∧
    message_id ev = msg_id ∧ author_id ev = ctx_author ctx ∧
    entrants ev = [] ∧ ended ev = false ∧
    reactions m = [] ∧ msg_channel m = ctx_channel ctx ∧
    channel_id ev = msg_channel m.
Proof.
  intros Hg0 Hchannel Hu Hbot. unfold event_command.
  eexists _, _, _. split; [reflexivity|].
  split.
  - unfold reaches. cbn [payload_guild_id payload_message_id payload_user_id]. fields.
    rewrite cache_insert_eq.
    eexists _, _. split; [done|]. split; [done|].
    split; [apply dict_get_set_eq|]. split; [apply dict_get_set_eq|].
    split; [by apply list_lookup_middle|].
    cbn [message_id set_message_id]. split; [apply dict_get_set_eq|]. done.
  - done.
Qed.

(** ** More on the expiry scan *)

(** X15.  The expiry scan does nothing to an event but end it, and only
    when its end time has passed: with every cache entry pointing at an
    object the scan returns, the cache is as before, and every event is
    either unchanged or, its end time not being in the future, the same
    event with the ended flag set. *)
Theorem expiry_scan_only_ends_expired (w : World) :
  cache_closed w = true →
  ∃ w', expiry_scan w = (Returned, w') ∧ cache w' = cache w ∧
    ∀ l ev, heap w !! l = Some ev →
      (now w < end_time ev → heap w' !! l = Some ev) ∧
      (heap w' !! l = Some ev ∨
       (end_time ev ≤ now w ∧ heap w' !! l = Some (set_ended true ev))).
Proof.
  intros Hclosed. unfold expiry_scan.
  destruct (expiry_scan_over_spec (dict_values (cache w)) w) as (w' & ext & Hrun & Hs & _).
  { intros gc l Hgc Hl. unfold cache_closed in Hclosed.
    rewrite forallb_forall in Hclosed. specialize (Hclosed gc Hgc).
    rewrite forallb_forall in Hclosed. specialize (Hclosed l Hl).
    by apply bool_decide_eq_true in Hclosed. }
  exists w'. split; [done|]. split; [apply (ss_cache _ _ _ Hs)|].
  intros l ev Hev. pose proof (ss_heap _ _ _ Hs l ev Hev) as Hcase.
  split; [|exact Hcase]. intros Hfuture. destruct Hcase as [H|[Hexp _]]; [done | lia].
Qed.

(** ** The answer of the selection loop *)

(** X16.  Whatever the replies, an answer the selection loop delivers is
    the value of one of the replies, a string of decimal digits, and lies
    between 1 and the number of specs: the index [answer - 1] into the list
    of specs is always in range, with "0" and the number of specs plus one
    rejected. *)
Theorem answer_in_range ck (n : nat) (mid uid : Z) (emoji : string)
    (script : list WaitResult) (w w' : World) (k : Z) :
  select_answer ck n mid uid emoji script w = Answered k w' →
  1 ≤ k ≤ Z.of_nat n ∧ (Z.to_nat (k - 1) < n)%nat ∧
  ∃ content, In (Reply content) script ∧
             str_isdigit ck content = true ∧ int_ ck content = Some k.
Proof.
  revert w. induction script as [|r script IH]; intros w; cbn [select_answer]; [done|].
  assert (Hretry :
    (let '(ok, w1) := send_dm uid (NotValidAnswer n) w in
     if ok then select_answer ck n mid uid emoji script w1
     else Stopped (Raised Forbidden) w1) = Answered k w' →
    1 ≤ k ≤ Z.of_nat n ∧ (Z.to_nat (k - 1) < n)%nat ∧
    ∃ content, In (Reply content) (r :: script) ∧
               str_isdigit ck content = true ∧ int_ ck content = Some k).
  { destruct (send_dm uid (NotValidAnswer n) w) as [ok w1]. destruct ok; [|done].
    intros H. destruct (IH _ H) as (Hr & Hi & c & Hin & Hd & Hc).
    split; [done|]. split; [done|]. exists c. split; [by right | done]. }
  destruct r as [content|].
  - destruct (str_isdigit ck content) eqn:Hd; cbn [negb]; [|exact Hretry].
    destruct (int_ ck content) as [k0|] eqn:Hk; [|done].
    destruct (in_choices k0 n) eqn:Hin; cbn [negb]; [|exact Hretry].
    intros [= -> ->]. rewrite in_choices_range in Hin.
    apply andb_true_iff in Hin as [H1%Z.leb_le H2%Z.leb_le].
    split; [lia|]. split; [lia|]. exists content. split; [by left | done].
  - destruct (send_dm uid TookTooLong w) as [ok w1]. by destruct ok.
Qed.

(** The replies "9" and "2" to a prompt with three specs. *)
Lemma answer_in_range_witness :
  1 ≤ 2 ≤ Z.of_nat 3 ∧ (Z.to_nat (2 - 1) < 3)%nat ∧
  ∃ content, In (Reply content) [Reply Demo.nine; Reply Demo.two] ∧
             str_isdigit Demo.char_kind content = true ∧
             int_ Demo.char_kind content = Some 2.
Proof.
  apply (answer_in_range Demo.char_kind 3 100 Demo.member Demo.mage
           [Reply Demo.nine; Reply Demo.two]
           (Demo.world [] (Demo.mage, Demo.member) true)
           (log_call (SendDM Demo.member (NotValidAnswer 3))
                     (Demo.world [] (Demo.mage, Demo.member) true)) 2).
  reflexivity.
Defined.

(** ** The further properties at concrete instances *)

(** A reaction of a user the bot does not know. *)
Lemma reaction_ignored_witness :
  Demo.run (Demo.react 42 Demo.mage) []
           (Demo.world [] (Demo.mage, 42) true)
  = (Returned, Demo.world [] (Demo.mage, 42) true).
Proof.
  unfold Demo.run. apply reaction_ignored; [reflexivity|].
  right. right. left. reflexivity.
Defined.

(** A thumbs-up on the event message. *)
Lemma unknown_emoji_only_stripped_witness :
  ∃ w', Demo.run (Demo.react Demo.member DemoStore.thumbs_up) []
                 (Demo.world [Demo.warrior_entry] (DemoStore.thumbs_up, Demo.member) true)
        = (Returned, w') ∧
    heap w' = [Demo.raid [Demo.warrior_entry]] ∧
    log w' = [RemoveReaction 100 DemoStore.thumbs_up Demo.member].
Proof.
  destruct (unknown_emoji_only_stripped Demo.char_kind Demo.emoji_class_dict
              Demo.class_spec_dict (Demo.react Demo.member DemoStore.thumbs_up) []
              (Demo.world [Demo.warrior_entry] (DemoStore.thumbs_up, Demo.member) true)
              0%nat (Demo.raid [Demo.warrior_entry])
              (Demo.posted (DemoStore.thumbs_up, Demo.member)) (mkUser false true))
    as (w' & Hrun & Hheap & _ & Hlog & _).
  - exists 1, [(100, 0%nat)]. by repeat split.
  - rewrite <- list_elem_of_In. apply (bool_decide_eq_false_1 _). by vm_compute.
  - exists w'. split; [exact Hrun|]. split; [exact Hheap | exact Hlog].
Defined.

(** The author's entry survives a signup of the member. *)
Lemma reaction_keeps_other_signups_witness :
  ∃ ev', heap (Demo.run (Demo.react Demo.member Demo.mage) [Reply Demo.two]
                 (Demo.world [mkEntrant Demo.author "warrior" "melee" "arms"]
                             (Demo.mage, Demo.member) true)).2 !! 0%nat = Some ev' ∧
         get_entrant ev' Demo.author
         = Some (mkEntrant Demo.author "warrior" "melee" "arms").
Proof.
  destruct (reaction_keeps_other_signups Demo.char_kind Demo.emoji_class_dict
              Demo.class_spec_dict (Demo.react Demo.member Demo.mage) [Reply Demo.two]
              (Demo.world [mkEntrant Demo.author "warrior" "melee" "arms"]
                          (Demo.mage, Demo.member) true)
              0%nat (Demo.raid [mkEntrant Demo.author "warrior" "melee" "arms"]))
    as (ev' & Hev' & Hothers & _).
  - reflexivity.
  - exists ev'. split; [exact Hev'|]. rewrite (Hothers Demo.author); [reflexivity|].
    by vm_compute.
Defined.

(** The member leaves the guild of the raid. *)
Lemma member_leave_clears_event_witness :
  ∃ w' ev', on_member_leave 1 Demo.member
              (Demo.world [Demo.warrior_entry] (Demo.mage, Demo.member) true)
            = (Returned, w') ∧
    heap w' !! 0%nat = Some ev' ∧ get_entrant ev' Demo.member = None.
Proof.
  destruct (member_leave_clears_event 1 Demo.member 100
              (Demo.world [Demo.warrior_entry] (Demo.mage, Demo.member) true)
              [(100, 0%nat)] 0%nat (Demo.raid [Demo.warrior_entry]))
    as (w' & ev' & Hrun & _ & Hev' & Hgone & _).
  - reflexivity.
  - reflexivity.
  - reflexivity.
  - reflexivity.
  - apply (bool_decide_unpack _). by vm_compute.
  - exists w', ev'. split; [exact Hrun|]. split; [exact Hev' | exact Hgone].
Defined.

Lemma member_leave_leaves_rest_alone_witness :
  ∃ w', on_member_leave 1 Demo.member
          (Demo.world [Demo.warrior_entry] (Demo.mage, Demo.member) true)
        = (Returned, w') ∧
    cache w' = [(1, [(100, 0%nat)])].
Proof.
  destruct (member_leave_leaves_rest_alone 1 Demo.member
              (Demo.world [Demo.warrior_entry] (Demo.mage, Demo.member) true))
    as (w' & Hrun & Hcache & _).
  - reflexivity.
  - exists w'. split; [exact Hrun | exact Hcache].
Defined.

(** The author, who is not signed up, leaves. *)
Lemma member_leave_without_signup_witness :
  on_member_leave 1 Demo.author
    (Demo.world [Demo.warrior_entry] (Demo.mage, Demo.member) true)
  = (Returned, Demo.world [Demo.warrior_entry] (Demo.mage, Demo.member) true).
Proof.
  apply member_leave_without_signup; [reflexivity|].
  intros data l ev [= <-] [<-|[]] [= <-]. reflexivity.
Defined.

Lemma demo_cache_wf (es : list Entrant) (r : string * Z) (dm : bool) :
  nested_wf (cache (Demo.world es r dm)).
Proof.
  split.
  - apply (bool_decide_unpack _). by vm_compute.
  - constructor; [|constructor]. apply (bool_decide_unpack _). by vm_compute.
Defined.

Lemma demo_records_wf : nested_wf DemoStore.records.
Proof.
  split.
  - apply (bool_decide_unpack _). by vm_compute.
  - constructor; [|constructor]. apply (bool_decide_unpack _). by vm_compute.
Defined.

(** The raid of [DemoStore.misfiled_world], an event of guild 1 cached
    under guild 2, is flushed under guild 1; the record under guild 2 is
    left as it was. *)
Lemma to_config_stores_cached_witness :
  stored (to_config DemoStore.misfiled_world) 1 100
  = Some (to_json (Demo.raid [Demo.warrior_entry])) ∧
  stored (to_config DemoStore.misfiled_world) 2 100 = Some (to_json (Demo.raid [])) ∧
  stored (to_config (Demo.world [Demo.warrior_entry] (Demo.mage, Demo.member) true)) 1 100
  = Some (to_json (Demo.raid [Demo.warrior_entry])).
Proof.
  split; [|split].
  - rewrite (proj1 (to_config_stores_cached DemoStore.misfiled_world 1 100)).
    reflexivity.
  - rewrite (proj1 (to_config_stores_cached DemoStore.misfiled_world 2 100)).
    reflexivity.
  - rewrite (proj2 (to_config_stores_cached
                      (Demo.world [Demo.warrior_entry] (Demo.mage, Demo.member) true)
                      1 100) (demo_cache_wf _ _ _) eq_refl).
    reflexivity.
Defined.

Lemma misfiled_records_wf : dict_wf DemoStore.misfiled_records.
Proof. apply (bool_decide_unpack _). by vm_compute. Defined.

(** The store of [DemoStore.misfiled_store]: the record under 101 holds the
    message id 100, is loaded after the record under 100 and takes its
    place; nothing is cached under 101. *)
Lemma to_cache_loads_records_witness :
  cached_event (to_cache DemoStore.misfiled_store) 1 100 = Some (Demo.raid []) ∧
  cached_event (to_cache DemoStore.misfiled_store) 1 101 = None ∧
  cached_event (to_cache DemoStore.stored_world) 1 100
  = Some (Demo.raid [Demo.warrior_entry]).
Proof.
  split; [|split].
  - rewrite (proj1 (to_cache_loads_records DemoStore.misfiled_store 1 100
                      eq_refl misfiled_records_wf)).
    reflexivity.
  - rewrite (proj1 (to_cache_loads_records DemoStore.misfiled_store 1 101
                      eq_refl misfiled_records_wf)).
    reflexivity.
  - rewrite (proj2 (to_cache_loads_records DemoStore.stored_world 1 100
                      eq_refl (proj1 demo_records_wf)) demo_records_wf eq_refl).
    reflexivity.
Defined.

Lemma to_cache_skips_bad_records_witness :
  cache_closed (to_cache DemoStore.stored_world) = true ∧
  log (to_cache DemoStore.stored_world) = [LogException].
Proof.
  destruct (to_cache_skips_bad_records DemoStore.stored_world)
    as (Hclosed & _ & Hlog & _).
  - reflexivity.
  - apply (bool_decide_unpack _). by vm_compute.
  - split; [exact Hclosed | exact Hlog].
Defined.

(** The same store at [setup]. *)
Lemma setup_loads_store_witness :
  cached_event (setup DemoStore.misfiled_store) 1 100 = Some (Demo.raid []) ∧
  cached_event (setup DemoStore.misfiled_store) 1 101 = None ∧
  cached_event (setup DemoStore.stored_world) 1 100
  = Some (Demo.raid [Demo.warrior_entry]).
Proof.
  split; [|split].
  - rewrite (proj1 (setup_loads_store DemoStore.misfiled_store 1 100
                      misfiled_records_wf)).
    reflexivity.
  - rewrite (proj1 (setup_loads_store DemoStore.misfiled_store 1 101
                      misfiled_records_wf)).
    reflexivity.
  - rewrite (proj2 (setup_loads_store DemoStore.stored_world 1 100
                      (proj1 demo_records_wf)) demo_records_wf eq_refl).
    reflexivity.
Defined.

Lemma flush_and_reload_keeps_events_witness :
  cached_event
    (flush_and_reload (Demo.world [Demo.warrior_entry] (Demo.mage, Demo.member) true))
    1 100
  = Some (Demo.raid [Demo.warrior_entry]).
Proof.
  apply flush_and_reload_keeps_events.
  - apply demo_cache_wf.
  - reflexivity.
  - split; [apply NoDup_nil_2 | constructor].
  - reflexivity.
  - reflexivity.
Defined.

(** The command of [DemoStore], invoked in channel 5 with [--channel 6],
    the message getting the id 200. *)
Lemma event_command_registers_witness :
  ∃ w', event_command Demo.emoji_class_dict DemoStore.ctx DemoStore.flags
          (Some (200, true)) (Demo.world [] (Demo.mage, Demo.member) true)
        = (Returned, w', [Demo.warrior; Demo.mage; END_EMOJI; LEAVE_EMOJI]) ∧
    cached_event w' 1 200
    = Some (mkEvent 200 1 Demo.author 6 "Raid" "desc" None 5000 [] false) ∧
    cached_event w' 1 100 = Some (Demo.raid []) ∧
    (msg_channel <$> dict_get 200 (messages w')) = Some 5.
Proof.
  destruct (event_command_registers Demo.emoji_class_dict DemoStore.ctx DemoStore.flags
              200 true (Demo.world [] (Demo.mage, Demo.member) true))
    as (w' & Hrun & Hnew & Hold & _ & _ & _ & Hmsg & _).
  - reflexivity.
  - exists w'. split; [exact Hrun|]. split; [exact Hnew|].
    split; [rewrite Hold; [reflexivity | by intros [_ [=]]]|].
    rewrite Hmsg. reflexivity.
Defined.

(** The command without [--channel], invoked in channel 5. *)
Lemma event_command_then_reaction_witness :
  ∃ w' ev m,
    event_command Demo.emoji_class_dict DemoStore.ctx DemoStore.plain_flags
      (Some (200, true)) (Demo.world [] (Demo.mage, Demo.member) true)
    = (Returned, w', reaction_menu Demo.emoji_class_dict) ∧
    reaches (mkPayload (Some 1) 200 Demo.member Demo.mage) w' 1%nat ev m
            (mkUser false true) ∧
    channel_id ev = 5 ∧ msg_channel m = 5.
Proof.
  destruct (event_command_then_reaction Demo.emoji_class_dict DemoStore.ctx
              DemoStore.plain_flags 200 true
              (Demo.world [] (Demo.mage, Demo.member) true)
              Demo.member Demo.mage (mkUser false true))
    as (w' & ev & m & Hrun & Hreach & _ & _ & _ & _ & _ & Hm & Hev).
  - by vm_compute.
  - reflexivity.
  - reflexivity.
  - reflexivity.
  - exists w', ev, m. split; [exact Hrun|]. split; [exact Hreach|].
    split; [by rewrite Hev, Hm | exact Hm].
Defined.

(** The scan before the end time of the raid. *)
Lemma expiry_scan_only_ends_expired_witness :
  ∃ w', expiry_scan (Demo.world [Demo.warrior_entry] (Demo.mage, Demo.member) true)
        = (Returned, w') ∧
    heap w' !! 0%nat = Some (Demo.raid [Demo.warrior_entry]).
Proof.
  destruct (expiry_scan_only_ends_expired
              (Demo.world [Demo.warrior_entry] (Demo.mage, Demo.member) true))
    as (w' & Hrun & _ & Hall).
  - reflexivity.
  - exists w'. split; [exact Hrun|].
    apply (Hall 0%nat (Demo.raid [Demo.warrior_entry])); [reflexivity | by vm_compute].
Defined.
